(** * The sync engine of github_repos_app: [upsert_user_and_repos] and the
      refresh job of [main.py], over the tables of [models.py].

    The store is modelled by its two tables.  A call of
    [upsert_user_and_repos] runs inside one SQLAlchemy session created with
    [autoflush=False] ([database.py]): queries read the rows of the open
    transaction, objects added with [db.add] stay pending until the next
    flush, attribute assignments stay in the session's identity map until the
    flush, and [db.commit()] flushes and then publishes the transaction, or
    rolls it back when a statement is rejected.

    What the configured backend decides is kept abstract (the variables of
    [Section Backend]): the surrogate keys it generates, which values it
    accepts in a [VARCHAR(n)], [VARCHAR] or [INTEGER] column, and the
    collation by which [ORDER BY name] compares two names.  The columns
    [created_at] and [updated_at] are filled by column defaults only; no
    statement of [main.py] reads or writes them, and they are left out of
    the rows.
    A fetched record is a JSON object; it is represented by what the five
    [repo.get(...)] calls of the loop return, with [None] for a missing key or
    a JSON null.  Equality of strings is equality of code units
    ([String.eqb]). *)

From Stdlib Require Import List ZArith Lia Bool String Ascii Permutation Sorted.
From Stdlib Require Import DecimalString.
Import ListNotations.
Local Open Scope string_scope.
Local Open Scope list_scope.
Local Open Scope Z_scope.

Set Implicit Arguments.

(** ** models.py *)

(** [class User]: [id], [username], [last_synced_at]. *)
Record User := mkUser {
  User_id : Z;
  username : string;
  last_synced_at : option Z
}.

(** [class Repository]: [name] and [html_url] are [nullable=False],
    [description] and [language] are nullable. *)
Record Repository := mkRepository {
  Repository_id : Z;
  github_id : Z;
  name : string;
  html_url : string;
  description : option string;
  language : option string;
  user_id : Z
}.

(** The committed content of the store. *)
Record Db := mkDb {
  users : list User;
  repositories : list Repository
}.

Definition empty_db : Db := mkDb [] [].

(** ** schemas.py *)

(** [class RepositoryBase], over the type of validated URLs. *)
Record RepositoryBase (HttpUrl : Type) := mkRepositoryBase {
  rb_name : string;
  rb_html_url : HttpUrl;
  rb_description : option string;
  rb_language : option string
}.

(** [class UserSyncResponse]. *)
Record UserSyncResponse (HttpUrl : Type) := mkUserSyncResponse {
  resp_username : string;
  status : string;
  is_new : bool;
  resp_repositories : list (RepositoryBase HttpUrl)
}.

(** ** Inputs and outcomes *)

(** One element of [repos_data], read through [repo.get]. *)
Record RepoDict := mkRepoDict {
  get_id : option Z;
  get_name : option string;
  get_html_url : option string;
  get_description : option string;
  get_language : option string
}.

(** The four attributes assigned at lines 136-139. *)
Record Attrs := mkAttrs {
  a_name : option string;
  a_html_url : option string;
  a_description : option string;
  a_language : option string
}.

Definition attrs_of (repo : RepoDict) : Attrs :=
  mkAttrs (get_name repo) (get_html_url repo)
          (get_description repo) (get_language repo).

(** The exceptions that leave the functions of [main.py]. *)
Inductive Exception :=
| HTTPException (status_code : Z) (detail : string)
| DBAPIError            (* sqlalchemy: IntegrityError, DataError, StaleDataError *)
| InvalidRequestError   (* sqlalchemy: [db.refresh] finds no row *)
| ValidationError       (* pydantic: [RepositoryBase.from_orm] *)
| RequestError          (* httpx: transport failure or timeout *)
| JSONDecodeError.      (* [response.json()] on a body that is not JSON *)

Inductive Result (A : Type) :=
| Return (a : A)
| Raise (e : Exception).
Arguments Raise {A} e.

(** ** Small list utilities *)

Definition option_eqb {A} (eqb : A -> A -> bool) (x y : option A) : bool :=
  match x, y with
  | Some a, Some b => eqb a b
  | None, None => true
  | _, _ => false
  end.

(** The identity map of a session: in-memory attribute state of the loaded
    objects, keyed by primary key. *)
Fixpoint im_get (pk : Z) (m : list (Z * Attrs)) : option Attrs :=
  match m with
  | [] => None
  | (k, a) :: m' => if k =? pk then Some a else im_get pk m'
  end.

Fixpoint im_set (pk : Z) (a : Attrs) (m : list (Z * Attrs)) : list (Z * Attrs) :=
  match m with
  | [] => [(pk, a)]
  | (k, b) :: m' => if k =? pk then (k, a) :: m' else (k, b) :: im_set pk a m'
  end.

(** [ORDER BY name ASC]: a stable insertion sort on the [name] column.
    [collation_le a b] tells whether the collation of the column puts [a]
    before [b] or level with it; no line of [models.py] or [main.py] chooses
    the collation, the database does. *)
Fixpoint insert_by_name (collation_le : string -> string -> bool)
         (r : Repository) (l : list Repository) : list Repository :=
  match l with
  | [] => [r]
  | x :: l' => if collation_le (name r) (name x) then r :: x :: l'
               else x :: insert_by_name collation_le r l'
  end.

Fixpoint order_by_name (collation_le : string -> string -> bool)
         (l : list Repository) : list Repository :=
  match l with
  | [] => []
  | x :: l' => insert_by_name collation_le x (order_by_name collation_le l')
  end.

(** Evaluation of a list of fallible conversions, as a list comprehension
    that raises at the first failure. *)
Fixpoint traverse {A B} (f : A -> option B) (l : list A) : option (list B) :=
  match l with
  | [] => Some []
  | x :: l' =>
      match f x with
      | None => None
      | Some y => match traverse f l' with
                  | None => None
                  | Some ys => Some (y :: ys)
                  end
      end
  end.

(** ** A concrete backend

    Serial keys, the column types of PostgreSQL (the default
    [DATABASE_URL] of [database.py]) on strings of ASCII characters, two
    collations, and a URL check that accepts the strings with an http or
    https scheme. *)

Definition serial (keys : list Z) : Z := 1 + fold_right Z.max 0 keys.

Definition pg_new_user_id (tbl : list User) : Z := serial (map User_id tbl).

Definition pg_new_repository_id (tbl : list Repository) : Z :=
  serial (map Repository_id tbl).

(** No text value holds the character U+0000. *)
Fixpoint no_nul (s : string) : bool :=
  match s with
  | EmptyString => true
  | String c s' => negb (Ascii.eqb c zero) && no_nul s'
  end.

Definition pg_text_ok (s : string) : bool := no_nul s.

Definition pg_varchar_ok (n : nat) (s : string) : bool :=
  (String.length s <=? n)%nat && no_nul s.

(** The collation "C": code-unit order. *)
Definition binary_le : string -> string -> bool := String.leb.

(** A collation that ignores the case of the ASCII letters, as the
    linguistic locales and the NOCASE collation do on words of letters. *)
Definition lower_ascii (c : ascii) : ascii :=
  let n := nat_of_ascii c in
  if ((65 <=? n) && (n <=? 90))%nat then ascii_of_nat (n + 32) else c.

Fixpoint lower (s : string) : string :=
  match s with
  | EmptyString => EmptyString
  | String c s' => String (lower_ascii c) (lower s')
  end.

Definition nocase_le (a b : string) : bool := String.leb (lower a) (lower b).

Definition pg_integer_ok (g : Z) : bool := (- 2 ^ 31 <=? g) && (g <? 2 ^ 31).

Definition scheme_http_url (s : string) : option string :=
  if prefix "http://" s || prefix "https://" s then Some s else None.

(** ** The upstream, as [fetch_github_repos] sees it *)

(** The body of a reply: not JSON at all, a JSON list (its elements are
    taken to be objects, as the annotation [List[dict]] has it), or another
    JSON value. *)
Inductive Body :=
| NotJson
| JsonList (data : list RepoDict)
| JsonOther.

(** What [client.get(url)] gives: no reply within the timeout or a transport
    failure (httpx raises), or a reply with its status code and body. *)
Inductive HttpReply :=
| NoReply
| Reply (status_code : Z) (body : Body).

(** The decimal digits of an integer, as an f-string prints it. *)

Definition string_of_Z (z : Z) : string :=
  NilZero.string_of_int (Z.to_int z).

(** What a run of the refresh job leaves: the store, how the job ended, the
    lines it printed and the usernames it fetched, in order. *)
Record Run := mkRun {
  run_db : Db;
  run_result : Result unit;
  printed : list string;
  requested : list string
}.

(** ** Sample data *)

(** A record as GitHub sends it. *)
Definition record (g : Z) (nm : string) : RepoDict :=
  mkRepoDict (Some g) (Some nm)
             (Some ("https://github.com/octocat/" ++ nm)%string)
             None (Some "Python").

Definition record_without_id : RepoDict :=
  mkRepoDict None (Some "stray") (Some "https://github.com/octocat/stray")
             None None.

Definition record_without_name : RepoDict :=
  mkRepoDict (Some 1) None (Some "https://github.com/octocat/x")
             (Some "no name") (Some "Python").

Definition record_without_html_url : RepoDict :=
  mkRepoDict (Some 1) (Some "x") None None None.

(** Two users: octocat owns the rows for the external ids 11, 12 and 13,
    hubot one row for the external id 11. *)
Definition sample_db : Db :=
  mkDb [mkUser 1 "octocat" (Some 50); mkUser 2 "hubot" (Some 60)]
       [mkRepository 1 11 "a" "https://github.com/octocat/a" None None 1;
        mkRepository 2 12 "b" "https://github.com/octocat/b" None None 1;
        mkRepository 3 13 "c" "https://github.com/octocat/c" None None 1;
        mkRepository 4 11 "h" "https://github.com/hubot/h" None (Some "Go") 2].

(** The store the job starts from in the example: four known users. *)
Definition sample_job_db : Db :=
  mkDb [mkUser 1 "octocat" (Some 50); mkUser 2 "ghost" (Some 51);
        mkUser 3 "busy" (Some 52); mkUser 4 "hubot" (Some 53)]
       [mkRepository 1 11 "a" "https://github.com/octocat/a" None None 1;
        mkRepository 2 21 "g" "https://github.com/ghost/g" None None 2;
        mkRepository 3 11 "h" "https://github.com/hubot/h" None (Some "Go") 4].

(** An upstream that knows octocat and hubot, has lost ghost and is
    overloaded for busy. *)
Definition sample_http_get (url : string) : HttpReply :=
  if String.eqb url "https://api.github.com/users/octocat/repos"
  then Reply 200 (JsonList [record 11 "a"; record 12 "b"])
  else if String.eqb url "https://api.github.com/users/hubot/repos"
  then Reply 200 (JsonList [record 11 "h"])
  else if String.eqb url "https://api.github.com/users/ghost/repos"
  then Reply 404 NotJson
  else if String.eqb url "https://api.github.com/users/busy/repos"
  then Reply 503 NotJson
  else NoReply.

(** An upstream whose list for octocat has seven records and whose list
    for hubot holds a record without [name]; it answers nothing else. *)
Definition crowded_http_get (url : string) : HttpReply :=
  if String.eqb url "https://api.github.com/users/octocat/repos"
  then Reply 200 (JsonList [record 1 "r1"; record 2 "r2"; record 3 "r3";
                            record 4 "r4"; record 5 "r5"; record 6 "r6";
                            record 7 "r7"])
  else if String.eqb url "https://api.github.com/users/hubot/repos"
  then Reply 200 (JsonList [record_without_name])
  else NoReply.

Section Backend.

(** The key the backend gives to a row inserted into [users] or
    [repositories]: some key that the table does not hold. *)
Variable new_user_id : list User -> Z.
Variable new_repository_id : list Repository -> Z.

(** Whether the backend stores a string in a [String(n)] column, an
    integer in an [Integer] column, and a string in a [String] column
    without length. *)
Variable varchar_ok : nat -> string -> bool.
Variable integer_ok : Z -> bool.
Variable text_ok : string -> bool.

(** pydantic's [HttpUrl]: the validated values and the validator. *)
Variable HttpUrl : Type.
Variable validate_http_url : string -> option HttpUrl.

(** The collation of the column [repositories.name]. *)
Variable collation_le : string -> string -> bool.

(** *** The session of one call *)

(** Lines 110-139 keep three things: the list [github_repo_ids], the
    attribute state of the rows they loaded, and the objects they added. *)
Record Session := mkSession {
  github_repo_ids : list Z;
  identity_map : list (Z * Attrs);
  pending : list (Z * Z * Attrs)      (* user_id, github_id, attributes *)
}.

Definition new_session : Session := mkSession [] [] [].

(** [db.query(Repository).filter(user_id == uid, github_id == g).first()]:
    a SELECT on the rows of the transaction; pending objects are not rows
    yet. *)
Definition query_repository (uid g : Z) (tbl : list Repository) : option Repository :=
  find (fun r => (user_id r =? uid)%Z && (github_id r =? g)%Z) tbl.

(** One iteration of the loop, lines 112-139. *)
Definition upsert_repo (tbl : list Repository) (uid : Z)
           (s : Session) (repo : RepoDict) : Session :=
  match get_id repo with
  | None => s
  | Some g =>
      let ids := (github_repo_ids s ++ [g])%list in
      match query_repository uid g tbl with
      | Some db_repo =>
          mkSession ids
                    (im_set (Repository_id db_repo) (attrs_of repo) (identity_map s))
                    (pending s)
      | None =>
          mkSession ids (identity_map s)
                    (pending s ++ [(uid, g, attrs_of repo)])%list
      end
  end.

Definition upsert_repos (tbl : list Repository) (uid : Z)
           (repos_data : list RepoDict) : Session :=
  fold_left (upsert_repo tbl uid) repos_data new_session.

(** Lines 142-147: [DELETE FROM repositories WHERE user_id = uid AND
    github_id NOT IN ids], executed on the transaction at once. *)
Definition in_ids (g : Z) (ids : list Z) : bool :=
  existsb (fun i => (i =? g)%Z) ids.

Definition delete_not_in (uid : Z) (ids : list Z)
           (tbl : list Repository) : list Repository :=
  filter (fun r => negb ((user_id r =? uid)%Z && negb (in_ids (github_id r) ids))) tbl.

(** *** Flush *)

(** A column of an UPDATE is sent only when its value changed; the backend
    checks the values it is sent. *)
Definition sent_ok {A} (eqb : A -> A -> bool) (accepts : A -> bool)
           (loaded new : A) : bool :=
  eqb loaded new || accepts new.

Definition nullable_ok (n : nat) (v : option string) : bool :=
  match v with
  | None => true
  | Some s => varchar_ok n s
  end.

Definition nullable_text_ok (v : option string) : bool :=
  match v with
  | None => true
  | Some s => text_ok s
  end.

Definition set_attrs (n h : string) (a : Attrs) (r : Repository) : Repository :=
  mkRepository (Repository_id r) (github_id r) n h
               (a_description a) (a_language a) (user_id r).

(** UPDATE of one loaded object.  [None] when the statement is rejected:
    a NULL in [name] or [html_url], a value the column type refuses, or no
    row left with that key. *)
Definition update_repository (pk : Z) (a : Attrs)
           (tbl : list Repository) : option (list Repository) :=
  match find (fun r => (Repository_id r =? pk)%Z) tbl with
  | None => None
  | Some loaded =>
      match a_name a, a_html_url a with
      | Some n, Some h =>
          if sent_ok String.eqb (varchar_ok 255) (name loaded) n
             && sent_ok String.eqb (varchar_ok 512) (html_url loaded) h
             && sent_ok (option_eqb String.eqb) nullable_text_ok
                        (description loaded) (a_description a)
             && sent_ok (option_eqb String.eqb) (nullable_ok 100)
                        (language loaded) (a_language a)
          then Some (map (fun r => if (Repository_id r =? pk)%Z
                                   then set_attrs n h a r else r) tbl)
          else None
      | _, _ => None
      end
  end.

Fixpoint flush_updates (m : list (Z * Attrs))
         (tbl : list Repository) : option (list Repository) :=
  match m with
  | [] => Some tbl
  | (pk, a) :: m' =>
      match update_repository pk a tbl with
      | None => None
      | Some tbl' => flush_updates m' tbl'
      end
  end.

(** INSERT of one pending object.  [None] when the statement is rejected:
    a NULL in [name] or [html_url], a value the column type refuses, or a
    row with the same (user_id, github_id) ([uq_user_repo]). *)
Definition insert_repository (o : Z * Z * Attrs)
           (tbl : list Repository) : option (list Repository) :=
  let '(uid, g, a) := o in
  match a_name a, a_html_url a with
  | Some n, Some h =>
      if integer_ok g && varchar_ok 255 n && varchar_ok 512 h
         && nullable_text_ok (a_description a)
         && nullable_ok 100 (a_language a)
         && negb (existsb (fun r => (user_id r =? uid)%Z && (github_id r =? g)%Z) tbl)
      then Some (tbl ++ [mkRepository (new_repository_id tbl) g n h
                                      (a_description a) (a_language a) uid])%list
      else None
  | _, _ => None
  end.

Fixpoint flush_inserts (p : list (Z * Z * Attrs))
         (tbl : list Repository) : option (list Repository) :=
  match p with
  | [] => Some tbl
  | o :: p' =>
      match insert_repository o tbl with
      | None => None
      | Some tbl' => flush_inserts p' tbl'
      end
  end.

Definition flush (s : Session) (tbl : list Repository) : option (list Repository) :=
  match flush_updates (identity_map s) tbl with
  | None => None
  | Some tbl' => flush_inserts (pending s) tbl'
  end.

(** *** Lines 101-108: look the user up, or add it and flush *)

Definition query_user (nm : string) (tbl : list User) : option User :=
  find (fun u => String.eqb (username u) nm) tbl.

(** The rows of [users] in the transaction, the user object and [is_new];
    [None] when the INSERT is rejected. *)
Definition get_or_create_user (nm : string) (tbl : list User)
  : option (list User * User * bool) :=
  match query_user nm tbl with
  | Some user => Some (tbl, user, false)
  | None =>
      if varchar_ok 39 nm
      then let user := mkUser (new_user_id tbl) nm None in
           Some ((tbl ++ [user])%list, user, true)
      else None
  end.

(** Line 149, written by the flush of the commit. *)
Definition set_last_synced_at (uid now : Z) (tbl : list User) : list User :=
  map (fun u => if (User_id u =? uid)%Z
                then mkUser (User_id u) (username u) (Some now) else u) tbl.

(** *** Lines 152-166: read the committed state back *)

Definition repositories_of (uid : Z) (tbl : list Repository) : list Repository :=
  filter (fun r => (user_id r =? uid)%Z) tbl.

Definition from_orm (r : Repository) : option (RepositoryBase HttpUrl) :=
  match validate_http_url (html_url r) with
  | None => None
  | Some url => Some (mkRepositoryBase (name r) url (description r) (language r))
  end.

Definition read_back (db : Db) (uid : Z) (new : bool)
  : Result (UserSyncResponse HttpUrl) :=
  match find (fun u => (User_id u =? uid)%Z) (users db) with
  | None => Raise InvalidRequestError
  | Some user =>
      let repos := order_by_name collation_le
                                 (repositories_of uid (repositories db)) in
      match traverse from_orm repos with
      | None => Raise ValidationError
      | Some rs =>
          Return (mkUserSyncResponse (username user)
                                     (if new then "new" else "updated")
                                     new rs)
      end
  end.

(** *** upsert_user_and_repos, lines 87-166

    The result is the committed store after the call together with what
    the call returned or raised.  [utcnow] is the clock reading of line
    149. *)
Definition upsert_user_and_repos (db : Db) (nm : string)
           (repos_data : list RepoDict) (utcnow : Z)
  : Db * Result (UserSyncResponse HttpUrl) :=
  match get_or_create_user nm (users db) with
  | None => (db, Raise DBAPIError)
  | Some (tx_users, user, new) =>
      let uid := User_id user in
      let s := upsert_repos (repositories db) uid repos_data in
      let tx_repos := delete_not_in uid (github_repo_ids s) (repositories db) in
      match flush s tx_repos with
      | None => (db, Raise DBAPIError)
      | Some tx_repos' =>
          let db' := mkDb (set_last_synced_at uid utcnow tx_users) tx_repos' in
          (db', read_back db' uid new)
      end
  end.

(** *** fetch_github_repos, lines 57-84 *)

(** [http_get] is the reply of the upstream to a GET of a URL. *)
Definition fetch_github_repos (http_get : string -> HttpReply) (nm : string)
  : Result (list RepoDict) :=
  let url := ("https://api.github.com/users/" ++ nm ++ "/repos")%string in
  match http_get url with
  | NoReply => Raise RequestError
  | Reply status_code body =>
      if status_code =? 404
      then Raise (HTTPException 404 "GitHub user not found.")
      else if negb (status_code =? 200)
      then Raise (HTTPException 502
                    ("Error querying GitHub: " ++ string_of_Z status_code)%string)
      else match body with
           | NotJson => Raise JSONDecodeError
           | JsonOther =>
               Raise (HTTPException 502 "Unexpected response from GitHub API.")
           | JsonList data => Return (firstn 5 data)
           end
  end.

(** *** refresh_user, lines 186-193: the store after the call, what the
    call returned or raised, and the lines it printed. *)
Definition refresh_user (http_get : string -> HttpReply)
           (db : Db) (nm : string) (utcnow : Z)
  : Db * Result unit * list string :=
  let '(db', r) :=
    match fetch_github_repos http_get nm with
    | Raise e => (db, Raise e)
    | Return repos_data =>
        match upsert_user_and_repos db nm repos_data utcnow with
        | (db', Return _) => (db', Return tt)
        | (db', Raise e) => (db', Raise e)
        end
    end in
  match r with
  | Raise (HTTPException _ detail) =>
      (db', Return tt,
       [("Error updating user " ++ nm ++ ": " ++ detail)%string])
  | _ => (db', r, [])
  end.

(** *** refresh_all_users, lines 196-216: [clock i] is the clock reading
    during the i-th iteration. *)
Fixpoint refresh_loop (http_get : string -> HttpReply)
         (usernames : list string) (clock : nat -> Z) (db : Db) : Run :=
  match usernames with
  | [] => mkRun db (Return tt) [] []
  | nm :: rest =>
      match refresh_user http_get db nm (clock 0%nat) with
      | (db', Raise e, out) => mkRun db' (Raise e) out [nm]
      | (db', Return _, out) =>
          let run := refresh_loop http_get rest (fun i => clock (S i)) db' in
          mkRun (run_db run) (run_result run)
                (out ++ printed run) (nm :: requested run)
      end
  end.

Definition refresh_all_users (http_get : string -> HttpReply)
           (db : Db) (clock : nat -> Z) : Run :=
  refresh_loop http_get (map username (users db)) clock db.

(** *** sync_github_user, lines 169-183: fetch, then reconcile.  An exception
    of the fetch leaves the function before the store is touched. *)
Definition sync_github_user (http_get : string -> HttpReply)
           (db : Db) (nm : string) (utcnow : Z)
  : Db * Result (UserSyncResponse HttpUrl) :=
  match fetch_github_repos http_get nm with
  | Raise e => (db, Raise e)
  | Return repos_data => upsert_user_and_repos db nm repos_data utcnow
  end.

(** *** Vocabulary of the statements *)

(** The external ids of the records that carry one, in input order. *)
Definition valid_ids (repos_data : list RepoDict) : list Z :=
  flat_map (fun repo => match get_id repo with
                        | Some g => [g]
                        | None => []
                        end) repos_data.

Definition has_id (repo : RepoDict) : bool :=
  match get_id repo with
  | Some _ => true
  | None => false
  end.

(** The last element of a list that satisfies a test. *)
Definition find_last {A} (p : A -> bool) (l : list A) : option A :=
  find p (rev l).

(** The last record of the input that carries the external id [g]. *)
Definition last_with_id (g : Z) (repos_data : list RepoDict) : option RepoDict :=
  find_last (fun repo => option_eqb Z.eqb (get_id repo) (Some g)) repos_data.

(** The attribute values a row holds. *)
Definition stored_attrs (r : Repository) : Attrs :=
  mkAttrs (Some (name r)) (Some (html_url r)) (description r) (language r).

Definition owner_and_id (r : Repository) : Z * Z := (user_id r, github_id r).

(** The transaction was published: the call did not end in the store's
    error. *)
Definition committed {A} (r : Result A) : Prop := r <> Raise DBAPIError.

(** The objects the loop adds: one per record whose SELECT finds no row. *)
Definition new_objects (tbl : list Repository) (uid : Z)
           (repos_data : list RepoDict) : list (Z * Z * Attrs) :=
  flat_map (fun repo =>
              match get_id repo with
              | Some g => match query_repository uid g tbl with
                          | None => [(uid, g, attrs_of repo)]
                          | Some _ => []
                          end
              | None => []
              end) repos_data.

(** The record's SELECT returns the row with primary key [pk]. *)
Definition loads (tbl : list Repository) (uid pk : Z) (repo : RepoDict) : bool :=
  match get_id repo with
  | Some g => match query_repository uid g tbl with
              | Some row => Repository_id row =? pk
              | None => false
              end
  | None => false
  end.

(** The columns no statement of the call assigns. *)
Definition row_key (r : Repository) : Z * Z * Z :=
  (Repository_id r, user_id r, github_id r).

(** What the flush leaves in a row, given the identity map. *)
Definition written (m : list (Z * Attrs)) (r : Repository) : Repository :=
  match im_get (Repository_id r) m with
  | Some a => match a_name a, a_html_url a with
              | Some n, Some h => set_attrs n h a r
              | _, _ => r
              end
  | None => r
  end.

(** What the flush inserts for a pending object. *)
Definition as_object (r : Repository) : Z * Z * Attrs :=
  (user_id r, github_id r, stored_attrs r).

(** The UPDATE of one object is accepted. *)
Definition can_update (pk : Z) (a : Attrs) (tbl : list Repository) : bool :=
  match update_repository pk a tbl with
  | Some _ => true
  | None => false
  end.

(** The checks of an INSERT that do not depend on the table. *)
Definition insertable (o : Z * Z * Attrs) : bool :=
  let '(_, g, a) := o in
  match a_name a, a_html_url a with
  | Some n, Some h =>
      integer_ok g && varchar_ok 255 n && varchar_ok 512 h
      && nullable_text_ok (a_description a)
      && nullable_ok 100 (a_language a)
  | _, _ => false
  end.

(** [a'] is [a] with [description] or [language] possibly dropped. *)
Definition weaker_attrs (a' a : Attrs) : Prop :=
  a_name a' = a_name a /\ a_html_url a' = a_html_url a
  /\ (a_description a' = None \/ a_description a' = a_description a)
  /\ (a_language a' = None \/ a_language a' = a_language a).

(** [repo'] is [repo] with [description] or [language] possibly missing. *)
Definition drops_optional (repo' repo : RepoDict) : Prop :=
  get_id repo' = get_id repo /\ get_name repo' = get_name repo
  /\ get_html_url repo' = get_html_url repo
  /\ (get_description repo' = None
      \/ get_description repo' = get_description repo)
  /\ (get_language repo' = None \/ get_language repo' = get_language repo).

(** Entries with the same key and weaker attributes. *)
Definition weaker_entry {K} (e' e : K * Attrs) : Prop :=
  fst e' = fst e /\ weaker_attrs (snd e') (snd e).

(** The rows stored for a user and an external id. *)
Definition rows_for (uid g : Z) (tbl : list Repository) : list Repository :=
  filter (fun r => (user_id r =? uid) && (github_id r =? g)) tbl.

(** The order of [ORDER BY name ASC]. *)
Definition name_le (a b : Repository) : Prop :=
  collation_le (name a) (name b) = true.

(** The line [refresh_user] prints for a caught [HTTPException]. *)
Definition error_line (nm detail : string) : string :=
  ("Error updating user " ++ nm ++ ": " ++ detail)%string.

(** The URL [fetch_github_repos] requests. *)
Definition repos_url (nm : string) : string :=
  ("https://api.github.com/users/" ++ nm ++ "/repos")%string.

(** The constraints of [models.py] on the content of the tables: primary
    keys, [unique=True] on [username], and [uq_user_repo]. *)
Definition wf_db (db : Db) : Prop :=
  NoDup (map User_id (users db)) /\
  NoDup (map username (users db)) /\
  NoDup (map Repository_id (repositories db)) /\
  NoDup (map owner_and_id (repositories db)).

(** The stores the service can be in: it starts empty and changes through
    [upsert_user_and_repos] only. *)
Inductive reachable : Db -> Prop :=
| reachable_empty : reachable empty_db
| reachable_upsert db nm repos_data utcnow :
    reachable db ->
    reachable (fst (upsert_user_and_repos db nm repos_data utcnow)).

(** The external ids the store holds for a username. *)
Definition stored_ids (nm : string) (db : Db) : list Z :=
  match query_user nm (users db) with
  | Some user => map github_id (repositories_of (User_id user) (repositories db))
  | None => []
  end.

(** [ForeignKey("users.id")]: every row of [repositories] belongs to a row
    of [users]. *)
Definition fk_ok (db : Db) : Prop :=
  forall row, In row (repositories db) ->
              In (user_id row) (map User_id (users db)).

(** The record can be written as it is: [name] and [html_url] are there and
    the backend accepts the value of every column. *)
Definition storable (repo : RepoDict) : Prop :=
  match get_id repo with
  | None => True
  | Some g =>
      exists n h, get_name repo = Some n /\ get_html_url repo = Some h
                  /\ integer_ok g = true /\ varchar_ok 255 n = true
                  /\ varchar_ok 512 h = true
                  /\ nullable_text_ok (get_description repo) = true
                  /\ nullable_ok 100 (get_language repo) = true
  end.

(** The stores that follow a store: any number of calls later. *)
Inductive later : Db -> Db -> Prop :=
| later_now db : later db db
| later_upsert db db' nm repos_data utcnow :
    later db db' ->
    later db (fst (upsert_user_and_repos db' nm repos_data utcnow)).

(** The generated keys are new. *)
Hypothesis new_user_id_fresh :
  forall tbl, ~ In (new_user_id tbl) (map User_id tbl).
Hypothesis new_repository_id_fresh :
  forall tbl, ~ In (new_repository_id tbl) (map Repository_id tbl).

(** A collation compares any two names, and transitively. *)
Hypothesis collation_le_total :
  forall a b, collation_le a b = true \/ collation_le b a = true.
Hypothesis collation_le_trans :
  forall a b c, collation_le a b = true -> collation_le b c = true ->
                collation_le a c = true.

(** *** The identity map *)

Lemma im_get_set_same pk a m : im_get pk (im_set pk a m) = Some a.
Proof.
  induction m as [|[k b] m IH]; simpl.
  - now rewrite Z.eqb_refl.
  - destruct (k =? pk) eqn:E; simpl; rewrite E; auto.
Qed.

Lemma im_get_set_other pk pk' a m :
  pk <> pk' -> im_get pk' (im_set pk a m) = im_get pk' m.
Proof.
  intros Hne. induction m as [|[k b] m IH]; simpl.
  - destruct (pk =? pk') eqn:E; auto. apply Z.eqb_eq in E. contradiction.
  - destruct (k =? pk) eqn:E; simpl.
    + apply Z.eqb_eq in E. subst k.
      destruct (pk =? pk') eqn:E'; auto.
      apply Z.eqb_eq in E'. contradiction.
    + now rewrite IH.
Qed.

Lemma im_set_keys pk a m k :
  In k (map fst (im_set pk a m)) <-> k = pk \/ In k (map fst m).
Proof.
  induction m as [|[k0 b] m IH]; simpl.
  - intuition.
  - destruct (k0 =? pk) eqn:E; simpl.
    + apply Z.eqb_eq in E. subst. intuition.
    + rewrite IH. intuition.
Qed.

Lemma im_set_NoDup pk a m :
  NoDup (map fst m) -> NoDup (map fst (im_set pk a m)).
Proof.
  induction m as [|[k b] m IH]; simpl; intros H.
  - constructor; [intros [] | constructor].
  - inversion H as [|? ? Hnin Hnd]; subst.
    destruct (k =? pk) eqn:E; simpl.
    + now constructor.
    + constructor; auto.
      rewrite im_set_keys. intros [-> | Hin]; auto.
      now rewrite Z.eqb_refl in E.
Qed.

Lemma im_get_None pk m : ~ In pk (map fst m) -> im_get pk m = None.
Proof.
  induction m as [|[k b] m IH]; simpl; intros H; auto.
  destruct (k =? pk) eqn:E.
  - apply Z.eqb_eq in E. tauto.
  - apply IH. tauto.
Qed.

Lemma im_get_In pk a m : im_get pk m = Some a -> In (pk, a) m.
Proof.
  induction m as [|[k b] m IH]; simpl; [discriminate|].
  destruct (k =? pk) eqn:E.
  - apply Z.eqb_eq in E. intros [= ->]. subst. now left.
  - auto.
Qed.

Lemma NoDup_snoc {A} (l : list A) x :
  NoDup l -> ~ In x l -> NoDup (l ++ [x]).
Proof.
  intros Hl Hx. apply NoDup_app; auto.
  - constructor; [intros [] | constructor].
  - intros a Ha [<- | []]. contradiction.
Qed.

(** *** Queries *)

Lemma find_app {A} (p : A -> bool) l1 l2 :
  find p (l1 ++ l2) = match find p l1 with
                      | Some x => Some x
                      | None => find p l2
                      end.
Proof.
  induction l1 as [|x l1 IH]; simpl; auto.
  destruct (p x); auto.
Qed.

Lemma find_last_cons {A} (p : A -> bool) x l :
  find_last p (x :: l) = match find_last p l with
                         | Some y => Some y
                         | None => if p x then Some x else None
                         end.
Proof. unfold find_last. simpl. now rewrite find_app. Qed.

Lemma query_repository_Some uid g tbl r :
  query_repository uid g tbl = Some r ->
  In r tbl /\ user_id r = uid /\ github_id r = g.
Proof.
  unfold query_repository. intros H. apply find_some in H.
  destruct H as [Hin H]. apply andb_true_iff in H.
  destruct H as [H1 H2]. apply Z.eqb_eq in H1, H2. auto.
Qed.

Lemma query_repository_None uid g tbl :
  query_repository uid g tbl = None ->
  forall r, In r tbl -> user_id r = uid -> github_id r <> g.
Proof.
  unfold query_repository. intros H r Hin Hu Hg.
  pose proof (find_none _ _ H r Hin) as Hf. simpl in Hf.
  rewrite Hu, Hg, !Z.eqb_refl in Hf. discriminate.
Qed.

Lemma in_ids_In g ids : in_ids g ids = true <-> In g ids.
Proof.
  unfold in_ids. rewrite existsb_exists. split.
  - intros [x [Hin E]]. apply Z.eqb_eq in E. now subst.
  - intros H. exists g. split; auto. apply Z.eqb_refl.
Qed.

Lemma In_valid_ids g l :
  In g (valid_ids l) <-> exists repo, In repo l /\ get_id repo = Some g.
Proof.
  unfold valid_ids. rewrite in_flat_map. split.
  - intros [repo [Hin H]]. exists repo. split; auto.
    destruct (get_id repo); simpl in H; [|tauto].
    destruct H as [->|[]]. reflexivity.
  - intros [repo [Hin H]]. exists repo. split; auto.
    rewrite H. now left.
Qed.

(** *** The loop of lines 112-139 *)

Lemma upsert_loop_ids tbl uid l s :
  github_repo_ids (fold_left (upsert_repo tbl uid) l s)
  = github_repo_ids s ++ valid_ids l.
Proof.
  revert s. induction l as [|repo l IH]; intros s; simpl.
  - now rewrite app_nil_r.
  - rewrite IH. unfold upsert_repo.
    destruct (get_id repo) as [g|]; simpl; auto.
    destruct (query_repository uid g tbl); simpl; now rewrite <- app_assoc.
Qed.

Lemma upsert_loop_pending tbl uid l s :
  pending (fold_left (upsert_repo tbl uid) l s)
  = pending s ++ new_objects tbl uid l.
Proof.
  revert s. induction l as [|repo l IH]; intros s; simpl.
  - now rewrite app_nil_r.
  - rewrite IH. unfold upsert_repo.
    destruct (get_id repo) as [g|]; simpl; auto.
    destruct (query_repository uid g tbl); simpl; auto.
    now rewrite <- app_assoc.
Qed.

Lemma upsert_repo_identity tbl uid pk s repo :
  im_get pk (identity_map (upsert_repo tbl uid s repo))
  = if loads tbl uid pk repo then Some (attrs_of repo)
    else im_get pk (identity_map s).
Proof.
  unfold upsert_repo, loads.
  destruct (get_id repo) as [g|]; auto.
  destruct (query_repository uid g tbl) as [row|]; simpl; auto.
  destruct (Repository_id row =? pk) eqn:E.
  - apply Z.eqb_eq in E. subst. apply im_get_set_same.
  - apply im_get_set_other. intros E'. rewrite E', Z.eqb_refl in E.
    discriminate.
Qed.

Lemma upsert_loop_identity tbl uid pk l s :
  im_get pk (identity_map (fold_left (upsert_repo tbl uid) l s))
  = match find_last (loads tbl uid pk) l with
    | Some repo => Some (attrs_of repo)
    | None => im_get pk (identity_map s)
    end.
Proof.
  revert s. induction l as [|repo l IH]; intros s; simpl; auto.
  rewrite IH, find_last_cons.
  destruct (find_last (loads tbl uid pk) l); auto.
  rewrite upsert_repo_identity.
  destruct (loads tbl uid pk repo); auto.
Qed.

Lemma upsert_loop_keys tbl uid pk l s :
  In pk (map fst (identity_map (fold_left (upsert_repo tbl uid) l s))) ->
  In pk (map fst (identity_map s))
  \/ exists repo, In repo l /\ loads tbl uid pk repo = true.
Proof.
  revert s. induction l as [|repo l IH]; intros s; simpl; auto.
  intros H. apply IH in H. destruct H as [H | [r [Hin Hl]]].
  - unfold upsert_repo in H.
    destruct (get_id repo) as [g|] eqn:Eg; auto.
    destruct (query_repository uid g tbl) as [row|] eqn:Eq; simpl in H; auto.
    apply im_set_keys in H. destruct H as [-> | H]; auto.
    right. exists repo. split; auto.
    unfold loads. rewrite Eg, Eq. apply Z.eqb_refl.
  - right. exists r. auto.
Qed.

Lemma upsert_loop_NoDup tbl uid l s :
  NoDup (map fst (identity_map s)) ->
  NoDup (map fst (identity_map (fold_left (upsert_repo tbl uid) l s))).
Proof.
  revert s. induction l as [|repo l IH]; intros s H; simpl; auto.
  apply IH. unfold upsert_repo.
  destruct (get_id repo) as [g|]; auto.
  destruct (query_repository uid g tbl); simpl; auto.
  now apply im_set_NoDup.
Qed.

Lemma loads_row tbl uid pk repo :
  loads tbl uid pk repo = true ->
  exists g row, get_id repo = Some g /\ query_repository uid g tbl = Some row
                /\ Repository_id row = pk.
Proof.
  unfold loads. destruct (get_id repo) as [g|] eqn:Eg; [|discriminate].
  destruct (query_repository uid g tbl) as [row|] eqn:Eq; [|discriminate].
  intros E. apply Z.eqb_eq in E. exists g, row. repeat split; auto.
Qed.

(** Every object in the identity map of the call was loaded from a row of
    the user whose external id is in [github_repo_ids]. *)
Lemma upsert_repos_keys tbl uid l pk :
  In pk (map fst (identity_map (upsert_repos tbl uid l))) ->
  exists row, In row tbl /\ Repository_id row = pk /\ user_id row = uid
              /\ In (github_id row) (valid_ids l).
Proof.
  intros H. apply upsert_loop_keys in H. destruct H as [[] | [repo [Hin Hl]]].
  apply loads_row in Hl. destruct Hl as [g [row [Eg [Eq Epk]]]].
  apply query_repository_Some in Eq. destruct Eq as [Hr [Hu Hg]].
  exists row. repeat split; auto.
  apply In_valid_ids. exists repo. subst g. auto.
Qed.

Lemma upsert_repos_ids tbl uid l :
  github_repo_ids (upsert_repos tbl uid l) = valid_ids l.
Proof. unfold upsert_repos. now rewrite upsert_loop_ids. Qed.

Lemma upsert_repos_pending tbl uid l :
  pending (upsert_repos tbl uid l) = new_objects tbl uid l.
Proof. unfold upsert_repos. now rewrite upsert_loop_pending. Qed.

Lemma upsert_repos_NoDup tbl uid l :
  NoDup (map fst (identity_map (upsert_repos tbl uid l))).
Proof. apply upsert_loop_NoDup. constructor. Qed.

(** *** The flush of the commit *)

Lemma update_repository_inv pk a tbl tbl' :
  update_repository pk a tbl = Some tbl' ->
  exists n h, a_name a = Some n /\ a_html_url a = Some h /\
              tbl' = map (fun r => if Repository_id r =? pk
                                   then set_attrs n h a r else r) tbl.
Proof.
  unfold update_repository.
  destruct (find _ tbl) as [loaded|]; [|discriminate].
  destruct (a_name a) as [n|]; [|discriminate].
  destruct (a_html_url a) as [h|]; [|discriminate].
  match goal with |- (if ?c then _ else _) = _ -> _ => destruct c end;
    [|discriminate].
  intros [= <-]. exists n, h. auto.
Qed.

Lemma flush_updates_written m tbl tbl' :
  flush_updates m tbl = Some tbl' ->
  NoDup (map fst m) ->
  tbl' = map (written m) tbl.
Proof.
  revert tbl. induction m as [|[pk a] m IH]; simpl; intros tbl H Hnd.
  - injection H as <-. unfold written. simpl.
    now rewrite map_id.
  - destruct (update_repository pk a tbl) as [t1|] eqn:Eu; [|discriminate].
    apply update_repository_inv in Eu.
    destruct Eu as [n [h [En [Eh ->]]]].
    inversion Hnd as [|? ? Hnin Hnd']; subst.
    rewrite (IH _ H Hnd'), map_map.
    apply map_ext. intros r. unfold written at 2. simpl.
    destruct (pk =? Repository_id r) eqn:E.
    + apply Z.eqb_eq in E. subst pk. rewrite Z.eqb_refl, En, Eh.
      unfold written. simpl. now rewrite (im_get_None _ _ Hnin).
    + rewrite Z.eqb_sym, E. reflexivity.
Qed.

Lemma written_row_key m r : row_key (written m r) = row_key r.
Proof.
  unfold written. destruct (im_get _ m) as [a|]; auto.
  destruct (a_name a); auto. destruct (a_html_url a); auto.
Qed.

Lemma written_absent m r :
  ~ In (Repository_id r) (map fst m) -> written m r = r.
Proof. intros H. unfold written. now rewrite (im_get_None _ _ H). Qed.

Lemma insert_repository_inv uid g a tbl tbl' :
  insert_repository (uid, g, a) tbl = Some tbl' ->
  exists row, tbl' = tbl ++ [row] /\ as_object row = (uid, g, a)
              /\ Repository_id row = new_repository_id tbl
              /\ ~ In (uid, g) (map owner_and_id tbl).
Proof.
  unfold insert_repository.
  destruct a as [[n|] [h|] d lg]; simpl; try discriminate.
  match goal with |- (if ?c then _ else _) = _ -> _ => destruct c eqn:E end;
    [|discriminate].
  intros [= <-]. eexists. split; [reflexivity|].
  repeat split.
  apply andb_true_iff in E. destruct E as [_ E].
  apply negb_true_iff in E. intros Hin.
  apply in_map_iff in Hin. destruct Hin as [r [Hk Hin]].
  pose proof (existsb_exists (fun r => (user_id r =? uid) && (github_id r =? g)) tbl)
    as [_ Hex].
  rewrite Hex in E; [discriminate|].
  exists r. split; auto.
  unfold owner_and_id in Hk. injection Hk as -> ->.
  now rewrite !Z.eqb_refl.
Qed.

Lemma flush_inserts_inv p tbl tbl' :
  flush_inserts p tbl = Some tbl' ->
  exists rows, tbl' = tbl ++ rows /\ map as_object rows = p.
Proof.
  revert tbl. induction p as [|[[uid g] a] p IH]; cbn [flush_inserts];
    intros tbl H.
  - injection H as <-. exists []. now rewrite app_nil_r.
  - destruct (insert_repository (uid, g, a) tbl) as [t1|] eqn:Ei; [|discriminate].
    apply insert_repository_inv in Ei.
    destruct Ei as [row [-> [Ho _]]].
    destruct (IH _ H) as [rows [-> Hm]].
    exists (row :: rows). simpl. rewrite <- app_assoc, Ho, Hm. auto.
Qed.

Lemma flush_inserts_NoDup_id p tbl tbl' :
  flush_inserts p tbl = Some tbl' ->
  NoDup (map Repository_id tbl) -> NoDup (map Repository_id tbl').
Proof.
  revert tbl. induction p as [|[[uid g] a] p IH]; cbn [flush_inserts];
    intros tbl H Hnd.
  - now injection H as <-.
  - destruct (insert_repository (uid, g, a) tbl) as [t1|] eqn:Ei; [|discriminate].
    apply insert_repository_inv in Ei.
    destruct Ei as [row [-> [_ [Hid _]]]].
    apply (IH _ H). rewrite map_app. simpl.
    apply NoDup_snoc; auto.
    rewrite Hid. apply new_repository_id_fresh.
Qed.

Lemma flush_inserts_NoDup_owner p tbl tbl' :
  flush_inserts p tbl = Some tbl' ->
  NoDup (map owner_and_id tbl) -> NoDup (map owner_and_id tbl').
Proof.
  revert tbl. induction p as [|[[uid g] a] p IH]; cbn [flush_inserts];
    intros tbl H Hnd.
  - now injection H as <-.
  - destruct (insert_repository (uid, g, a) tbl) as [t1|] eqn:Ei; [|discriminate].
    apply insert_repository_inv in Ei.
    destruct Ei as [row [-> [Ho [_ Hnin]]]].
    apply (IH _ H). rewrite map_app. simpl.
    apply NoDup_snoc; auto.
    unfold as_object in Ho. unfold owner_and_id at 1.
    injection Ho as -> -> _. exact Hnin.
Qed.

(** *** The user row *)

Lemma get_or_create_user_inv nm tbl tx user new :
  get_or_create_user nm tbl = Some (tx, user, new) ->
  username user = nm /\ query_user nm tx = Some user /\
  (if new
   then query_user nm tbl = None /\ tx = tbl ++ [user]
        /\ User_id user = new_user_id tbl
   else query_user nm tbl = Some user /\ tx = tbl).
Proof.
  unfold get_or_create_user.
  destruct (query_user nm tbl) as [u|] eqn:Eq.
  - intros [= <- <- <-]. repeat split; auto.
    unfold query_user in Eq. apply find_some in Eq.
    now apply String.eqb_eq.
  - destruct (varchar_ok 39 nm); [|discriminate].
    intros [= <- <- <-]. simpl. repeat split; auto.
    unfold query_user in *. rewrite find_app, Eq. simpl.
    now rewrite String.eqb_refl.
Qed.

Lemma query_user_set_last_synced_at nm uid now tbl user :
  query_user nm tbl = Some user -> User_id user = uid ->
  query_user nm (set_last_synced_at uid now tbl)
  = Some (mkUser uid nm (Some now)).
Proof.
  unfold query_user. intros H Hid.
  induction tbl as [|u tbl IH]; simpl in *; [discriminate|].
  destruct (String.eqb (username u) nm) eqn:E.
  - injection H as ->. rewrite Hid, Z.eqb_refl. simpl. rewrite E.
    apply String.eqb_eq in E. now rewrite E.
  - destruct (User_id u =? uid); simpl; rewrite E; auto.
Qed.

Lemma find_exists {A} (p : A -> bool) l x :
  In x l -> p x = true -> exists y, find p l = Some y.
Proof.
  intros Hin Hp. destruct (find p l) as [y|] eqn:E; eauto.
  rewrite (find_none _ _ E x Hin) in Hp. discriminate.
Qed.

Lemma set_last_synced_at_ids uid now tbl :
  map User_id (set_last_synced_at uid now tbl) = map User_id tbl.
Proof.
  unfold set_last_synced_at. rewrite map_map. apply map_ext.
  intros u. now destruct (User_id u =? uid).
Qed.

Lemma set_last_synced_at_usernames uid now tbl :
  map username (set_last_synced_at uid now tbl) = map username tbl.
Proof.
  unfold set_last_synced_at. rewrite map_map. apply map_ext.
  intros u. now destruct (User_id u =? uid).
Qed.

Lemma read_back_committed db uid new : committed (read_back db uid new).
Proof.
  unfold committed, read_back.
  destruct (find _ (users db)); [|discriminate].
  destruct (traverse _ _); discriminate.
Qed.

(** *** The two ways a call ends *)

Lemma upsert_inv db nm l now db' r :
  upsert_user_and_repos db nm l now = (db', r) ->
  (db' = db /\ r = Raise DBAPIError)
  \/ exists tx user new rows,
      get_or_create_user nm (users db) = Some (tx, user, new)
      /\ users db' = set_last_synced_at (User_id user) now tx
      /\ flush (upsert_repos (repositories db) (User_id user) l)
               (delete_not_in (User_id user) (valid_ids l) (repositories db))
         = Some (repositories db')
      /\ repositories db'
         = map (written (identity_map
                           (upsert_repos (repositories db) (User_id user) l)))
               (delete_not_in (User_id user) (valid_ids l) (repositories db))
           ++ rows
      /\ map as_object rows = new_objects (repositories db) (User_id user) l
      /\ r = read_back db' (User_id user) new.
Proof.
  unfold upsert_user_and_repos.
  destruct (get_or_create_user nm (users db)) as [[[tx user] new]|] eqn:Eu.
  2: { intros [= <- <-]. now left. }
  rewrite upsert_repos_ids.
  destruct (flush _ _) as [repos'|] eqn:Ef.
  2: { intros [= <- <-]. now left. }
  intros [= <- <-]. right.
  pose proof Ef as Ef0. unfold flush in Ef.
  destruct (flush_updates _ _) as [t1|] eqn:E1; [|discriminate].
  apply flush_updates_written in E1; [|apply upsert_repos_NoDup].
  pose proof (flush_inserts_inv _ _ Ef) as [rows [Hrows Hobj]].
  rewrite upsert_repos_pending in Hobj.
  exists tx, user, new, rows. simpl.
  repeat split; auto. now rewrite <- E1.
Qed.

(** *** The rows of the user after a commit *)

Lemma delete_not_in_In uid ids tbl r :
  In r (delete_not_in uid ids tbl)
  <-> In r tbl /\ (user_id r = uid -> In (github_id r) ids).
Proof.
  unfold delete_not_in. rewrite filter_In.
  split; intros [Hin H]; split; auto.
  - intros Hu. apply in_ids_In.
    rewrite Hu, Z.eqb_refl in H. simpl in H.
    now destruct (in_ids (github_id r) ids).
  - destruct (user_id r =? uid) eqn:E; auto. simpl.
    apply Z.eqb_eq in E. apply H, in_ids_In in E. now rewrite E.
Qed.

Lemma new_objects_In tbl uid l o :
  In o (new_objects tbl uid l)
  <-> exists repo g, In repo l /\ get_id repo = Some g
                     /\ query_repository uid g tbl = None
                     /\ o = (uid, g, attrs_of repo).
Proof.
  unfold new_objects. rewrite in_flat_map. split.
  - intros [repo [Hin H]].
    destruct (get_id repo) as [g|] eqn:Eg; [|destruct H].
    destruct (query_repository uid g tbl) eqn:Eq; [destruct H|].
    destruct H as [<-|[]]. exists repo, g. auto.
  - intros [repo [g [Hin [Eg [Eq ->]]]]]. exists repo. split; auto.
    rewrite Eg, Eq. now left.
Qed.

Section Committed_rows.

Variables (tbl rows tbl' : list Repository) (uid : Z) (l : list RepoDict).
Variable m : list (Z * Attrs).
Hypothesis Htbl' :
  tbl' = map (written m) (delete_not_in uid (valid_ids l) tbl) ++ rows.
Hypothesis Hrows : map as_object rows = new_objects tbl uid l.

Lemma inserted_row row :
  In row rows ->
  exists repo, In repo l /\ get_id repo = Some (github_id row)
               /\ query_repository uid (github_id row) tbl = None
               /\ user_id row = uid /\ stored_attrs row = attrs_of repo.
Proof.
  intros Hin. apply (in_map as_object) in Hin. rewrite Hrows in Hin.
  apply new_objects_In in Hin.
  destruct Hin as [repo [g [Hin [Eg [Eq Eo]]]]].
  unfold as_object in Eo.
  assert (Hu : user_id row = uid) by congruence.
  assert (Hg : github_id row = g) by congruence.
  assert (Ha : stored_attrs row = attrs_of repo) by congruence.
  exists repo. subst g. repeat split; auto.
Qed.

Lemma committed_row_inv row :
  In row tbl' ->
  (exists r0, In r0 tbl /\ (user_id r0 = uid -> In (github_id r0) (valid_ids l))
              /\ row = written m r0)
  \/ In row rows.
Proof.
  rewrite Htbl', in_app_iff, in_map_iff.
  intros [[r0 [E Hin]] | Hin]; auto.
  left. exists r0. apply delete_not_in_In in Hin.
  destruct Hin as [Hin Hk]. repeat split; auto.
Qed.

Lemma committed_rows_subset row :
  In row tbl' -> user_id row = uid -> In (github_id row) (valid_ids l).
Proof.
  intros Hin Hu. apply committed_row_inv in Hin.
  destruct Hin as [[r0 [Hin [Hk ->]]] | Hin].
  - pose proof (written_row_key m r0) as K. unfold row_key in K.
    injection K as _ Ku Kg. rewrite Kg. apply Hk. congruence.
  - apply inserted_row in Hin. destruct Hin as [repo [Hin [Eg _]]].
    apply In_valid_ids. eauto.
Qed.

Lemma committed_rows_cover g :
  In g (valid_ids l) ->
  exists row, In row tbl' /\ user_id row = uid /\ github_id row = g.
Proof.
  intros Hg. rewrite Htbl'.
  destruct (query_repository uid g tbl) as [r0|] eqn:Eq.
  - apply query_repository_Some in Eq. destruct Eq as [Hin [Hu Hg0]].
    exists (written m r0).
    pose proof (written_row_key m r0) as K. unfold row_key in K.
    injection K as _ Ku Kg.
    repeat split; try congruence.
    apply in_or_app. left. apply in_map.
    apply delete_not_in_In. split; auto. intros _. now rewrite Hg0.
  - apply In_valid_ids in Hg. destruct Hg as [repo [Hin Eg]].
    assert (Ho : In (uid, g, attrs_of repo) (map as_object rows)).
    { rewrite Hrows. apply new_objects_In. exists repo, g. auto. }
    apply in_map_iff in Ho. destruct Ho as [row [Eo Hr]].
    unfold as_object in Eo. injection Eo as Hu Hg' _.
    exists row. repeat split; auto. apply in_or_app. now right.
Qed.

End Committed_rows.

Lemma read_back_outcome db uid new user :
  In user (users db) -> User_id user = uid ->
  (exists resp, read_back db uid new = Return resp
                /\ status resp = (if new then "new" else "updated")
                /\ is_new resp = new)
  \/ read_back db uid new = Raise ValidationError.
Proof.
  intros Hin Hid. unfold read_back.
  destruct (find_exists (fun u => User_id u =? uid) _ _ Hin) as [u ->].
  { rewrite Hid. apply Z.eqb_refl. }
  destruct (traverse _ _); eauto.
Qed.

(** What a call that committed leaves, in terms of the input only. *)
Lemma upsert_committed db nm l now db' r :
  upsert_user_and_repos db nm l now = (db', r) -> committed r ->
  exists uid new,
    query_user nm (users db') = Some (mkUser uid nm (Some now))
    /\ (query_user nm (users db) = None <-> new = true)
    /\ (forall user, query_user nm (users db) = Some user -> User_id user = uid)
    /\ (forall row, In row (repositories db') -> user_id row = uid ->
                    In (github_id row) (valid_ids l))
    /\ (forall g, In g (valid_ids l) ->
                  exists row, In row (repositories db')
                              /\ user_id row = uid /\ github_id row = g)
    /\ ((exists resp, r = Return resp
                      /\ status resp = (if new then "new" else "updated")
                      /\ is_new resp = new)
        \/ r = Raise ValidationError).
Proof.
  intros H Hc. apply upsert_inv in H.
  destruct H as [[_ ->] | [tx [user [new [rows H]]]]]; [now elim Hc|].
  destruct H as [Hu [Husers [_ [Hrepos [Hrows ->]]]]].
  apply get_or_create_user_inv in Hu. destruct Hu as [Hn [Hq Hnew]].
  pose proof (query_user_set_last_synced_at _ now _ Hq eq_refl) as Hq'.
  rewrite <- Husers in Hq'.
  exists (User_id user), new. repeat split.
  - exact Hq'.
  - intros E. destruct new; auto. destruct Hnew as [E' _]. congruence.
  - intros ->. tauto.
  - intros u E. destruct new.
    + destruct Hnew as [E' _]. congruence.
    + destruct Hnew as [E' _]. congruence.
  - eapply committed_rows_subset; eauto.
  - eapply committed_rows_cover; eauto.
  - eapply read_back_outcome with (user := mkUser (User_id user) nm (Some now)); auto.
    unfold query_user in Hq'. now apply find_some in Hq'.
Qed.

Lemma In_repositories_of uid tbl r :
  In r (repositories_of uid tbl) <-> In r tbl /\ user_id r = uid.
Proof.
  unfold repositories_of. rewrite filter_In. now rewrite Z.eqb_eq.
Qed.

(** C1.  After a call that committed, the external ids of the rows stored
    for the user are exactly the external ids of the records that carry
    one: every stored row of the user whose id is not among them is gone,
    and nothing is left when no record carries an id. *)
Theorem reconcile_ids_exact db nm l now db' r :
  upsert_user_and_repos db nm l now = (db', r) -> committed r ->
  exists user,
    query_user nm (users db') = Some user
    /\ (forall g, In g (map github_id
                            (repositories_of (User_id user) (repositories db')))
                  <-> In g (valid_ids l))
    /\ (forall row, In row (repositories db) -> user_id row = User_id user ->
                    ~ In (github_id row) (valid_ids l) ->
                    ~ In row (repositories db'))
    /\ (valid_ids l = [] ->
        repositories_of (User_id user) (repositories db') = []).
Proof.
  intros H Hc. apply upsert_committed in H; auto.
  destruct H as [uid [new [Hq [_ [_ [Hsub [Hcov _]]]]]]].
  exists (mkUser uid nm (Some now)). simpl. repeat split; auto.
  - rewrite in_map_iff. intros [row [<- Hin]].
    apply In_repositories_of in Hin. destruct Hin. now apply Hsub.
  - intros Hg. apply Hcov in Hg. destruct Hg as [row [Hin [Hu Hg]]].
    apply in_map_iff. exists row. split; auto.
    now apply In_repositories_of.
  - intros Hnil.
    destruct (repositories_of uid (repositories db')) as [|row rest] eqn:E; auto.
    assert (Hin : In row (repositories_of uid (repositories db')))
      by (rewrite E; now left).
    apply In_repositories_of in Hin. destruct Hin as [Hin Hu].
    apply Hsub in Hin; auto. rewrite Hnil in Hin. destruct Hin.
Qed.


(** *** The constraints are kept *)

Lemma NoDup_map_filter {A B} (f : A -> B) (p : A -> bool) l :
  NoDup (map f l) -> NoDup (map f (filter p l)).
Proof.
  induction l as [|x l IH]; simpl; intros H; [constructor|].
  inversion H as [|? ? Hnin Hnd]; subst.
  destruct (p x); simpl; auto.
  constructor; auto.
  intros Hin. apply Hnin. apply in_map_iff in Hin.
  destruct Hin as [y [E Hy]]. apply filter_In in Hy.
  rewrite <- E. apply in_map. tauto.
Qed.

Lemma NoDup_map_eq {A B} (f : A -> B) l x y :
  NoDup (map f l) -> In x l -> In y l -> f x = f y -> x = y.
Proof.
  induction l as [|z l IH]; simpl; intros H Hx Hy E; [destruct Hx|].
  inversion H as [|? ? Hnin Hnd]; subst.
  destruct Hx as [-> | Hx], Hy as [-> | Hy]; auto.
  - elim Hnin. rewrite E. now apply in_map.
  - elim Hnin. rewrite <- E. now apply in_map.
Qed.

Lemma written_id m r : Repository_id (written m r) = Repository_id r.
Proof. pose proof (written_row_key m r) as K. unfold row_key in K. congruence. Qed.

Lemma written_user_id m r : user_id (written m r) = user_id r.
Proof. pose proof (written_row_key m r) as K. unfold row_key in K. congruence. Qed.

Lemma written_github_id m r : github_id (written m r) = github_id r.
Proof. pose proof (written_row_key m r) as K. unfold row_key in K. congruence. Qed.

Lemma map_written_ids m tbl :
  map Repository_id (map (written m) tbl) = map Repository_id tbl.
Proof. rewrite map_map. apply map_ext. intros. apply written_id. Qed.

Lemma map_written_owner m tbl :
  map owner_and_id (map (written m) tbl) = map owner_and_id tbl.
Proof.
  rewrite map_map. apply map_ext. intros r. unfold owner_and_id.
  now rewrite written_user_id, written_github_id.
Qed.

Lemma flush_inv s tbl tbl' :
  flush s tbl = Some tbl' -> NoDup (map fst (identity_map s)) ->
  flush_inserts (pending s) (map (written (identity_map s)) tbl) = Some tbl'.
Proof.
  unfold flush. intros H Hnd.
  destruct (flush_updates _ _) as [t1|] eqn:E; [|discriminate].
  apply flush_updates_written in E; auto. now subst.
Qed.

Lemma query_user_None nm tbl :
  query_user nm tbl = None -> ~ In nm (map username tbl).
Proof.
  unfold query_user. intros H Hin. apply in_map_iff in Hin.
  destruct Hin as [u [E Hu]].
  pose proof (find_none _ _ H u Hu) as F. simpl in F.
  rewrite E, String.eqb_refl in F. discriminate.
Qed.

Lemma upsert_wf db nm l now :
  wf_db db -> wf_db (fst (upsert_user_and_repos db nm l now)).
Proof.
  intros [Hu [Hn [Hr Ho]]].
  destruct (upsert_user_and_repos db nm l now) as [db' r] eqn:E. simpl.
  apply upsert_inv in E.
  destruct E as [[-> _] | [tx [user [new [rows H]]]]]; [now repeat split|].
  destruct H as [Hg [Husers [Hf _]]].
  apply get_or_create_user_inv in Hg. destruct Hg as [Hname [_ Hnew]].
  apply flush_inv in Hf; [|apply upsert_repos_NoDup].
  unfold wf_db. rewrite Husers, set_last_synced_at_ids,
    set_last_synced_at_usernames.
  repeat split.
  - destruct new.
    + destruct Hnew as [_ [-> Hid]]. rewrite map_app. simpl.
      apply NoDup_snoc; auto. rewrite Hid. apply new_user_id_fresh.
    + destruct Hnew as [_ ->]. auto.
  - destruct new.
    + destruct Hnew as [Hq [-> _]]. rewrite map_app. simpl.
      apply NoDup_snoc; auto. rewrite Hname.
      now apply query_user_None.
    + destruct Hnew as [_ ->]. auto.
  - apply (flush_inserts_NoDup_id _ _ Hf).
    rewrite map_written_ids. now apply NoDup_map_filter.
  - apply (flush_inserts_NoDup_owner _ _ Hf).
    rewrite map_written_owner. now apply NoDup_map_filter.
Qed.

Lemma reachable_wf db : reachable db -> wf_db db.
Proof.
  induction 1 as [|db nm l now _ IH].
  - repeat split; constructor.
  - now apply upsert_wf.
Qed.

(** *** Rows of other users *)

Lemma filter_map_frame {A} (p : A -> bool) (f : A -> A) l :
  (forall x, In x l -> f x = x \/ (p (f x) = false /\ p x = false)) ->
  filter p (map f l) = filter p l.
Proof.
  induction l as [|x l IH]; simpl; intros H; auto.
  rewrite IH by auto.
  destruct (H x (or_introl eq_refl)) as [-> | [-> ->]]; auto.
Qed.

Lemma filter_filter_frame {A} (p q : A -> bool) l :
  (forall x, In x l -> p x = true -> q x = true) ->
  filter p (filter q l) = filter p l.
Proof.
  induction l as [|x l IH]; simpl; intros H; auto.
  destruct (q x) eqn:Eq; simpl; rewrite IH by auto; auto.
  destruct (p x) eqn:Ep; auto.
  rewrite (H x (or_introl eq_refl) Ep) in Eq. discriminate.
Qed.

Lemma filter_nothing {A} (p : A -> bool) l :
  (forall x, In x l -> p x = false) -> filter p l = [].
Proof.
  induction l as [|x l IH]; simpl; intros H; auto.
  rewrite (H x) by auto. auto.
Qed.

(** The rows of [repositories] outside the user's are those of before. *)
Lemma upsert_frame_repositories db l db' user rows vid :
  NoDup (map Repository_id (repositories db)) ->
  vid <> User_id user ->
  repositories db'
  = map (written (identity_map
                    (upsert_repos (repositories db) (User_id user) l)))
        (delete_not_in (User_id user) (valid_ids l) (repositories db))
    ++ rows ->
  map as_object rows = new_objects (repositories db) (User_id user) l ->
  repositories_of vid (repositories db')
  = repositories_of vid (repositories db).
Proof.
  intros Hnd Hne Hrepos Hrows.
  rewrite Hrepos. unfold repositories_of. rewrite filter_app.
  rewrite (filter_nothing _ rows), app_nil_r.
  - rewrite filter_map_frame.
    + unfold delete_not_in. apply filter_filter_frame.
      intros r _ Hv. apply Z.eqb_eq in Hv.
      destruct (user_id r =? User_id user) eqn:E; auto.
      apply Z.eqb_eq in E. congruence.
    + intros r Hin. apply delete_not_in_In in Hin. destruct Hin as [Hin _].
      rewrite written_user_id.
      destruct (user_id r =? vid) eqn:E; auto.
      left. apply written_absent. intros Hk.
      apply upsert_repos_keys in Hk.
      destruct Hk as [row [Hrow [Hid [Hu _]]]].
      assert (row = r) by (eapply NoDup_map_eq; eauto).
      apply Z.eqb_eq in E. congruence.
  - intros row Hin.
    destruct (@inserted_row _ _ _ _ Hrows row Hin) as [_ [_ [_ [_ [Hu _]]]]].
    apply Z.eqb_neq. congruence.
Qed.

(** C8.  A call for one username leaves the [users] rows of every other
    username, and the [repositories] rows they own, as they were: none is
    created, changed or deleted. *)
Theorem other_user_untouched db nm l now db' r other :
  wf_db db -> other <> nm ->
  upsert_user_and_repos db nm l now = (db', r) ->
  filter (fun u => String.eqb (username u) other) (users db')
  = filter (fun u => String.eqb (username u) other) (users db)
  /\ forall v, In v (users db) -> username v = other ->
               repositories_of (User_id v) (repositories db')
               = repositories_of (User_id v) (repositories db).
Proof.
  intros [Hu [Hn [Hr Ho]]] Hne E. apply upsert_inv in E.
  destruct E as [[-> _] | [tx [user [new [rows H]]]]]; [now split|].
  destruct H as [Hg [Husers [_ [Hrepos [Hrows _]]]]].
  pose proof (get_or_create_user_inv _ _ Hg) as [Hname [Hq Hnew]].
  assert (Hother : forall v, In v (users db) -> username v = other ->
                             User_id v <> User_id user).
  { intros v Hv Hvn Hid. destruct new.
    - destruct Hnew as [_ [_ Hfresh]]. rewrite Hfresh in Hid.
      apply (new_user_id_fresh (users db)). rewrite <- Hid. now apply in_map.
    - destruct Hnew as [Hq' _]. unfold query_user in Hq'.
      apply find_some in Hq'. destruct Hq' as [Huser _].
      assert (v = user) by (apply (NoDup_map_eq User_id (users db)); auto).
      congruence. }
  split.
  - rewrite Husers. unfold set_last_synced_at.
    assert (Htx : filter (fun u => String.eqb (username u) other) tx
                  = filter (fun u => String.eqb (username u) other) (users db)).
    { destruct new.
      - destruct Hnew as [_ [-> _]]. rewrite filter_app. simpl.
        rewrite Hname. destruct (String.eqb_spec nm other); [congruence|].
        now rewrite app_nil_r.
      - destruct Hnew as [_ ->]. reflexivity. }
    rewrite <- Htx. apply filter_map_frame. intros u Hin.
    destruct (User_id u =? User_id user) eqn:Eid; auto.
    apply Z.eqb_eq in Eid. simpl.
    destruct (String.eqb_spec (username u) other) as [Eo|]; auto.
    exfalso. destruct new.
    + destruct Hnew as [_ [-> _]]. apply in_app_or in Hin.
      destruct Hin as [Hin | [<- | []]]; [|congruence].
      now apply (Hother u).
    + destruct Hnew as [_ ->]. now apply (Hother u).
  - intros v Hv Hvn.
    eapply upsert_frame_repositories; eauto.
Qed.

(** *** Last write wins *)

Lemma flush_updates_not_null m tbl tbl' pk a :
  flush_updates m tbl = Some tbl' -> In (pk, a) m ->
  exists n h, a_name a = Some n /\ a_html_url a = Some h.
Proof.
  revert tbl. induction m as [|[k b] m IH]; cbn [flush_updates];
    intros tbl H Hin; [destruct Hin|].
  destruct (update_repository k b tbl) as [t1|] eqn:Eu; [|discriminate].
  destruct Hin as [[= -> ->] | Hin]; [|eauto].
  apply update_repository_inv in Eu.
  destruct Eu as [n [h [En [Eh _]]]]. eauto.
Qed.

Lemma flush_inserts_keys p tbl tbl' :
  flush_inserts p tbl = Some tbl' ->
  NoDup (map fst p)
  /\ forall k, In k (map fst p) -> ~ In k (map owner_and_id tbl).
Proof.
  revert tbl. induction p as [|[[uid g] a] p IH]; cbn [flush_inserts];
    intros tbl H.
  - split; [constructor | intros k []].
  - destruct (insert_repository (uid, g, a) tbl) as [t1|] eqn:Ei; [|discriminate].
    apply insert_repository_inv in Ei.
    destruct Ei as [row [-> [Ho [_ Hnin]]]].
    destruct (IH _ H) as [Hnd Hk]. simpl.
    assert (Hrow : owner_and_id row = (uid, g)).
    { unfold as_object in Ho. unfold owner_and_id. congruence. }
    split.
    + constructor; auto. intros Hin. apply (Hk _ Hin).
      rewrite map_app, in_app_iff. right. simpl. auto.
    + intros k [<- | Hin]; auto.
      intros Hin'. apply (Hk _ Hin). rewrite map_app, in_app_iff. now left.
Qed.

Lemma last_with_id_Some g l :
  In g (valid_ids l) -> exists repo, last_with_id g l = Some repo.
Proof.
  intros H. apply In_valid_ids in H. destruct H as [repo [Hin Eg]].
  unfold last_with_id, find_last.
  eapply find_exists with (x := repo).
  - now apply in_rev in Hin.
  - rewrite Eg. simpl. apply Z.eqb_refl.
Qed.

Lemma last_with_id_In g l repo :
  last_with_id g l = Some repo -> In repo l /\ get_id repo = Some g.
Proof.
  unfold last_with_id, find_last. intros H. apply find_some in H.
  destruct H as [Hin H]. split; [now apply in_rev|].
  destruct (get_id repo) as [g'|]; simpl in H; [|discriminate].
  apply Z.eqb_eq in H. now subst.
Qed.

Lemma find_last_ext {A} (p q : A -> bool) l :
  (forall x, p x = q x) -> find_last p l = find_last q l.
Proof.
  intros H. unfold find_last.
  induction (rev l) as [|x l' IH]; simpl; auto.
  now rewrite H, IH.
Qed.

Lemma loads_own_row tbl uid r0 repo :
  NoDup (map Repository_id tbl) -> NoDup (map owner_and_id tbl) ->
  In r0 tbl -> user_id r0 = uid ->
  loads tbl uid (Repository_id r0) repo
  = option_eqb Z.eqb (get_id repo) (Some (github_id r0)).
Proof.
  intros Hpk Hown Hin Hu. unfold loads.
  destruct (get_id repo) as [g|]; simpl; auto.
  destruct (query_repository uid g tbl) as [row|] eqn:Eq.
  - apply query_repository_Some in Eq. destruct Eq as [Hrow [Hru Hrg]].
    destruct (Repository_id row =? Repository_id r0) eqn:E.
    + apply Z.eqb_eq in E.
      assert (row = r0) by (apply (NoDup_map_eq Repository_id tbl); auto).
      subst row. symmetry. rewrite <- Hrg. apply Z.eqb_refl.
    + symmetry. apply Z.eqb_neq. intros Hg.
      assert (row = r0).
      { apply (NoDup_map_eq owner_and_id tbl); auto.
        unfold owner_and_id. congruence. }
      subst row. now rewrite Z.eqb_refl in E.
  - symmetry. apply Z.eqb_neq. intros Hg.
    apply (@query_repository_None _ _ _ Eq r0 Hin Hu). now symmetry.
Qed.

(** After a commit every row of the user holds the attributes of the last
    record that carries its external id. *)
Lemma stored_is_last tbl uid l tbl' row :
  NoDup (map Repository_id tbl) -> NoDup (map owner_and_id tbl) ->
  flush (upsert_repos tbl uid l) (delete_not_in uid (valid_ids l) tbl)
  = Some tbl' ->
  In row tbl' -> user_id row = uid ->
  exists repo, last_with_id (github_id row) l = Some repo
               /\ stored_attrs row = attrs_of repo.
Proof.
  intros Hpk Hown Hf Hin Hu.
  pose proof (@flush_inv _ _ _ Hf (upsert_repos_NoDup _ _ _)) as Hi.
  pose proof (@flush_inserts_inv _ _ _ Hi) as [rows [Htbl' Hrows]].
  rewrite upsert_repos_pending in Hrows.
  destruct (@committed_row_inv _ _ _ _ _ _ Htbl' _ Hin) as [[r0 [H0 [Hk ->]]] | Hrow].
  - rewrite written_user_id in Hu. rewrite written_github_id.
    destruct (@last_with_id_Some _ _ (Hk Hu)) as [repo Hlast].
    exists repo. split; auto.
    assert (Hget : im_get (Repository_id r0)
                          (identity_map (upsert_repos tbl uid l))
                   = Some (attrs_of repo)).
    { unfold upsert_repos. rewrite upsert_loop_identity.
      rewrite (find_last_ext _ (fun repo => option_eqb Z.eqb (get_id repo)
                                              (Some (github_id r0)))).
      - unfold last_with_id in Hlast. now rewrite Hlast.
      - intros x. now apply loads_own_row. }
    unfold flush in Hf.
    destruct (flush_updates _ _) as [t1|] eqn:E1; [|discriminate].
    destruct (@flush_updates_not_null _ _ _ _ _ E1 (@im_get_In _ _ _ Hget))
      as [n [h [En Eh]]].
    unfold written. rewrite Hget, En, Eh.
    unfold stored_attrs, attrs_of in *. simpl in *. congruence.
  - destruct (@inserted_row _ _ _ _ Hrows row Hrow)
      as [repo0 [Hin0 [Eg0 [_ [_ Ha0]]]]].
    assert (Hg : In (github_id row) (valid_ids l))
      by (apply In_valid_ids; eauto).
    destruct (@last_with_id_Some _ _ Hg) as [repo Hlast].
    exists repo. split; auto. rewrite Ha0.
    destruct (@last_with_id_In _ _ _ Hlast) as [Hin1 Eg1].
    destruct (@inserted_row _ _ _ _ Hrows row Hrow)
      as [_ [_ [_ [Eq _]]]].
    destruct (@flush_inserts_keys _ _ _ Hi) as [Hnd _].
    rewrite upsert_repos_pending in Hnd.
    assert (E : (uid, github_id row, attrs_of repo0)
                = (uid, github_id row, attrs_of repo)).
    { apply (NoDup_map_eq fst (new_objects tbl uid l)); auto.
      - apply new_objects_In. exists repo0, (github_id row). auto.
      - apply new_objects_In. exists repo, (github_id row). auto. }
    congruence.
Qed.

(** *** When the flush is accepted *)

Lemma find_map_other (pk pk' : Z) (f : Repository -> Repository) tbl :
  pk <> pk' -> (forall r, Repository_id (f r) = Repository_id r) ->
  find (fun r => Repository_id r =? pk)
       (map (fun r => if Repository_id r =? pk' then f r else r) tbl)
  = find (fun r => Repository_id r =? pk) tbl.
Proof.
  intros Hne Hf. induction tbl as [|r tbl IH]; simpl; auto.
  destruct (Repository_id r =? pk') eqn:E'.
  - apply Z.eqb_eq in E'. rewrite Hf.
    destruct (Repository_id r =? pk) eqn:E; auto.
    apply Z.eqb_eq in E. congruence.
  - now rewrite IH.
Qed.

Lemma can_update_after pk a pk' a' tbl t1 :
  pk <> pk' -> update_repository pk' a' tbl = Some t1 ->
  can_update pk a t1 = can_update pk a tbl.
Proof.
  intros Hne H. apply update_repository_inv in H.
  destruct H as [n [h [_ [_ ->]]]].
  unfold can_update, update_repository.
  rewrite find_map_other; auto.
  destruct (find _ tbl); auto.
  destruct (a_name a); auto. destruct (a_html_url a); auto.
  repeat match goal with
         | |- context [if ?c then Some _ else None] => destruct c
         end; auto.
Qed.

Lemma flush_updates_checks m tbl tbl' pk a :
  flush_updates m tbl = Some tbl' -> NoDup (map fst m) ->
  In (pk, a) m -> can_update pk a tbl = true.
Proof.
  revert tbl. induction m as [|[k b] m IH]; cbn [flush_updates];
    intros tbl H Hnd Hin; [destruct Hin|].
  inversion Hnd as [|? ? Hnin Hnd']; subst.
  destruct (update_repository k b tbl) as [t1|] eqn:Eu; [|discriminate].
  destruct Hin as [[= -> ->] | Hin].
  - unfold can_update. now rewrite Eu.
  - rewrite <- (@can_update_after pk a k b tbl t1);
      eauto.
    intros ->. apply Hnin. now apply (in_map fst) in Hin.
Qed.

Lemma flush_updates_accepted m tbl :
  NoDup (map fst m) ->
  (forall pk a, In (pk, a) m -> can_update pk a tbl = true) ->
  exists tbl', flush_updates m tbl = Some tbl'.
Proof.
  revert tbl. induction m as [|[k b] m IH]; cbn [flush_updates];
    intros tbl Hnd H; [eauto|].
  inversion Hnd as [|? ? Hnin Hnd']; subst.
  pose proof (H k b (or_introl eq_refl)) as Hk. unfold can_update in Hk.
  destruct (update_repository k b tbl) as [t1|] eqn:Eu; [|discriminate].
  apply IH; auto. intros pk a Hin.
  rewrite (@can_update_after pk a k b tbl t1); auto.
  - apply H. now right.
  - intros ->. apply Hnin. now apply (in_map fst) in Hin.
Qed.

Lemma insert_repository_accepted uid g a tbl :
  insertable (uid, g, a) = true ->
  ~ In (uid, g) (map owner_and_id tbl) ->
  exists row, insert_repository (uid, g, a) tbl = Some (tbl ++ [row])
              /\ owner_and_id row = (uid, g).
Proof.
  unfold insertable, insert_repository. intros Hi Hnin.
  destruct (a_name a) as [n|]; [|discriminate].
  destruct (a_html_url a) as [h|]; [|discriminate].
  rewrite Hi. simpl.
  destruct (existsb _ tbl) eqn:E.
  - exfalso. apply Hnin. apply existsb_exists in E.
    destruct E as [r [Hin E]]. apply andb_true_iff in E.
    destruct E as [E1 E2]. apply Z.eqb_eq in E1, E2.
    apply in_map_iff. exists r. unfold owner_and_id. split; congruence.
  - simpl. eexists. split; reflexivity.
Qed.

Lemma flush_inserts_insertable p tbl tbl' o :
  flush_inserts p tbl = Some tbl' -> In o p -> insertable o = true.
Proof.
  revert tbl. induction p as [|[[uid g] a] p IH]; cbn [flush_inserts];
    intros tbl H Hin; [destruct Hin|].
  destruct (insert_repository (uid, g, a) tbl) as [t1|] eqn:Ei; [|discriminate].
  destruct Hin as [<- | Hin]; [|eauto].
  unfold insert_repository in Ei. unfold insertable.
  destruct (a_name a); [|discriminate].
  destruct (a_html_url a); [|discriminate].
  match type of Ei with (if ?c then _ else _) = _ => destruct c eqn:E end;
    [|discriminate].
  apply andb_true_iff in E. tauto.
Qed.

Lemma flush_inserts_accepted p tbl :
  NoDup (map fst p) ->
  (forall k, In k (map fst p) -> ~ In k (map owner_and_id tbl)) ->
  (forall o, In o p -> insertable o = true) ->
  exists tbl', flush_inserts p tbl = Some tbl'.
Proof.
  revert tbl. induction p as [|[[uid g] a] p IH]; cbn [flush_inserts];
    intros tbl Hnd Hk Hi; [eauto|].
  simpl in Hnd. inversion Hnd as [|? ? Hnin Hnd']; subst.
  destruct (insert_repository_accepted uid g a tbl) as [row [-> Hrow]].
  - apply Hi. now left.
  - apply Hk. now left.
  - apply IH; auto.
    + intros k Hin. rewrite map_app, in_app_iff. simpl.
      intros [H | [H | []]].
      * apply (Hk k); simpl; auto.
      * apply Hnin. congruence.
    + intros o Hin. apply Hi. now right.
Qed.

(** *** Dropping optional fields *)

Lemma attrs_of_weaker repo' repo :
  drops_optional repo' repo -> weaker_attrs (attrs_of repo') (attrs_of repo).
Proof. unfold drops_optional, weaker_attrs. simpl. tauto. Qed.

Lemma im_set_weaker pk a' a (m' m : list (Z * Attrs)) :
  Forall2 weaker_entry m' m -> weaker_attrs a' a ->
  Forall2 weaker_entry (im_set pk a' m') (im_set pk a m).
Proof.
  intros H Ha. induction H as [|[k' b'] [k b] m' m [Hk Hb] H IH]; simpl.
  - constructor; [now split | constructor].
  - simpl in Hk. subst k'. destruct (k =? pk).
    + constructor; auto. split; auto.
    + constructor; auto. split; auto.
Qed.

Lemma upsert_loop_weaker tbl uid l' l :
  Forall2 drops_optional l' l ->
  forall s' s,
    github_repo_ids s' = github_repo_ids s ->
    Forall2 weaker_entry (identity_map s') (identity_map s) ->
    Forall2 weaker_entry (pending s') (pending s) ->
    let r' := fold_left (upsert_repo tbl uid) l' s' in
    let r := fold_left (upsert_repo tbl uid) l s in
    github_repo_ids r' = github_repo_ids r
    /\ Forall2 weaker_entry (identity_map r') (identity_map r)
    /\ Forall2 weaker_entry (pending r') (pending r).
Proof.
  induction 1 as [|repo' repo l' l Hd _ IH]; intros s' s Hi Hm Hp; simpl; auto.
  apply IH; unfold upsert_repo;
    pose proof (attrs_of_weaker Hd) as Ha;
    destruct Hd as [Eid _]; rewrite Eid;
    destruct (get_id repo) as [g|]; auto;
    destruct (query_repository uid g tbl); simpl; auto.
  - now rewrite Hi.
  - now rewrite Hi.
  - now apply im_set_weaker.
  - apply Forall2_app; auto. constructor; [now split | constructor].
Qed.

Lemma Forall2_In_left {A B} (R : A -> B -> Prop) l' l x' :
  Forall2 R l' l -> In x' l' -> exists x, In x l /\ R x' x.
Proof.
  induction 1 as [|y' y l' l Hy _ IH]; intros Hin; [destruct Hin|].
  destruct Hin as [<- | Hin].
  - exists y. split; auto. now left.
  - destruct (IH Hin) as [x [Hx Hr]]. exists x. split; auto. now right.
Qed.

Lemma weaker_entry_keys {K} (l' l : list (K * Attrs)) :
  Forall2 weaker_entry l' l -> map fst l' = map fst l.
Proof.
  induction 1 as [|e' e l' l [He _] _ IH]; simpl; congruence.
Qed.

Lemma can_update_weaker pk a' a tbl :
  weaker_attrs a' a -> can_update pk a tbl = true ->
  can_update pk a' tbl = true.
Proof.
  intros [En [Eh [Ed El]]]. unfold can_update, update_repository.
  destruct (find _ tbl) as [loaded|]; auto.
  rewrite En, Eh.
  destruct (a_name a) as [n|]; auto. destruct (a_html_url a) as [h|]; auto.
  assert (Hd : sent_ok (option_eqb String.eqb) nullable_text_ok
                       (description loaded) (a_description a) = true ->
               sent_ok (option_eqb String.eqb) nullable_text_ok
                       (description loaded) (a_description a') = true).
  { destruct Ed as [-> | ->]; auto.
    intros _. unfold sent_ok. simpl. now rewrite orb_true_r. }
  assert (Hl : sent_ok (option_eqb String.eqb) (nullable_ok 100)
                       (language loaded) (a_language a) = true ->
               sent_ok (option_eqb String.eqb) (nullable_ok 100)
                       (language loaded) (a_language a') = true).
  { destruct El as [-> | ->]; auto.
    intros _. unfold sent_ok. simpl. now rewrite orb_true_r. }
  match goal with
  | |- match (if ?c then _ else _) with _ => _ end = true ->
       match (if ?c' then _ else _) with _ => _ end = true =>
      destruct c eqn:E; [|discriminate]; intros _;
      assert (E' : c' = true); [|now rewrite E']
  end.
  rewrite !andb_true_iff in *. destruct E as [[[H1 H2] H3] H4].
  repeat split; auto.
Qed.

Lemma insertable_weaker (o' o : Z * Z * Attrs) :
  weaker_entry o' o -> insertable o = true -> insertable o' = true.
Proof.
  destruct o' as [[u' g'] a'], o as [[u g] a]. unfold weaker_entry. simpl.
  intros [[= -> ->] [En [Eh [Ed El]]]]. rewrite En, Eh.
  destruct (a_name a); auto. destruct (a_html_url a); auto.
  rewrite !andb_true_iff. intros [[[[Hg Hn] Hh] Hd] Hl].
  repeat split; auto.
  - destruct Ed as [-> | ->]; auto.
  - destruct El as [-> | ->]; auto.
Qed.

Lemma flush_weaker s' s tbl t :
  Forall2 weaker_entry (identity_map s') (identity_map s) ->
  Forall2 weaker_entry (pending s') (pending s) ->
  NoDup (map fst (identity_map s)) ->
  flush s tbl = Some t -> exists t', flush s' tbl = Some t'.
Proof.
  intros Hm Hp Hnd Hf.
  assert (Hnd' : NoDup (map fst (identity_map s')))
    by now rewrite (weaker_entry_keys Hm).
  pose proof (flush_inv _ _ Hf Hnd) as Hi.
  unfold flush in Hf.
  destruct (flush_updates (identity_map s) tbl) as [t1|] eqn:E1; [|discriminate].
  destruct (flush_updates_accepted (identity_map s') tbl Hnd') as [t1' E1'].
  { intros pk a' Hin.
    pose proof Hm as Hm0. eapply Forall2_In_left in Hm0; [|exact Hin].
    destruct Hm0 as [[k a] [Hin0 [Hk Ha]]].
    simpl in Hk, Ha. subst k.
    eapply can_update_weaker; eauto.
    eapply flush_updates_checks; eauto. }
  unfold flush. rewrite E1'.
  apply flush_updates_written in E1'; auto. subst t1'.
  destruct (flush_inserts_keys _ _ Hi) as [Hk Hfree].
  rewrite map_written_owner in Hfree.
  apply flush_inserts_accepted.
  - now rewrite (weaker_entry_keys Hp).
  - intros k Hin. rewrite map_written_owner.
    apply Hfree. now rewrite <- (weaker_entry_keys Hp).
  - intros o' Hin.
    pose proof Hp as Hp0. eapply Forall2_In_left in Hp0; [|exact Hin].
    destruct Hp0 as [o [Hin0 Ho]].
    eapply insertable_weaker; eauto.
    eapply flush_inserts_insertable; eauto.
Qed.

Lemma valid_ids_weaker l' l :
  Forall2 drops_optional l' l -> valid_ids l' = valid_ids l.
Proof.
  induction 1 as [|repo' repo l' l [Eid _] _ IH]; simpl; auto.
  now rewrite Eid, IH.
Qed.

Lemma upsert_commits db nm l now tx user new t :
  get_or_create_user nm (users db) = Some (tx, user, new) ->
  flush (upsert_repos (repositories db) (User_id user) l)
        (delete_not_in (User_id user) (valid_ids l) (repositories db))
  = Some t ->
  upsert_user_and_repos db nm l now
  = (mkDb (set_last_synced_at (User_id user) now tx) t,
     read_back (mkDb (set_last_synced_at (User_id user) now tx) t)
               (User_id user) new).
Proof.
  intros Hu Hf. unfold upsert_user_and_repos.
  now rewrite Hu, upsert_repos_ids, Hf.
Qed.

(** Records that lose [description] or [language] do not make a call that
    committed fail. *)
Lemma upsert_weaker db nm l' l now :
  Forall2 drops_optional l' l ->
  committed (snd (upsert_user_and_repos db nm l now)) ->
  committed (snd (upsert_user_and_repos db nm l' now)).
Proof.
  intros Hd Hc.
  destruct (upsert_user_and_repos db nm l now) as [db1 r1] eqn:E.
  apply upsert_inv in E.
  destruct E as [[_ ->] | [tx [user [new [rows H]]]]]; [now elim Hc|].
  destruct H as [Hu [_ [Hf _]]].
  destruct (@upsert_loop_weaker (repositories db) (User_id user) l' l Hd
              new_session new_session eq_refl (Forall2_nil _) (Forall2_nil _))
    as [_ [Hm Hp]].
  destruct (@flush_weaker (upsert_repos (repositories db) (User_id user) l')
              _ _ _ Hm Hp (upsert_repos_NoDup _ _ _) Hf) as [t' Hf'].
  rewrite <- (valid_ids_weaker Hd) in Hf'.
  rewrite (@upsert_commits _ _ _ now _ _ _ _ Hu Hf'). simpl.
  apply read_back_committed.
Qed.

(** *** One row per record *)

Lemma find_nothing {A} (p : A -> bool) l :
  (forall x, In x l -> p x = false) -> find p l = None.
Proof.
  induction l as [|x l IH]; simpl; intros H; auto.
  rewrite (H x) by auto. auto.
Qed.

Lemma last_with_id_split g pre repo post :
  get_id repo = Some g -> ~ In g (valid_ids post) ->
  last_with_id g (pre ++ repo :: post) = Some repo.
Proof.
  intros Eg Hnin. unfold last_with_id, find_last.
  rewrite rev_app_distr. simpl. rewrite <- app_assoc, find_app.
  rewrite find_nothing.
  - simpl. rewrite Eg. simpl. now rewrite Z.eqb_refl.
  - intros x Hin. apply in_rev in Hin.
    destruct (get_id x) as [g'|] eqn:E; simpl; auto.
    apply Z.eqb_neq. intros ->. apply Hnin, In_valid_ids. eauto.
Qed.

Lemma rows_for_unique tbl row :
  NoDup (map owner_and_id tbl) -> In row tbl ->
  rows_for (user_id row) (github_id row) tbl = [row].
Proof.
  unfold rows_for. induction tbl as [|x tbl IH]; simpl; intros Hnd Hin;
    [destruct Hin|].
  inversion Hnd as [|? ? Hnin Hnd']; subst.
  destruct Hin as [-> | Hin].
  - rewrite !Z.eqb_refl. simpl. f_equal. apply filter_nothing.
    intros y Hy. apply andb_false_iff.
    destruct (user_id y =? user_id row) eqn:E1; auto.
    destruct (github_id y =? github_id row) eqn:E2; auto.
    apply Z.eqb_eq in E1, E2. elim Hnin. apply in_map_iff.
    exists y. unfold owner_and_id. split; congruence.
  - rewrite IH by auto.
    destruct (user_id x =? user_id row) eqn:E1; auto.
    destruct (github_id x =? github_id row) eqn:E2; auto.
    apply Z.eqb_eq in E1, E2. elim Hnin. apply in_map_iff.
    exists row. unfold owner_and_id. split; congruence.
Qed.

Lemma row_of_last_record db nm l now db' r pre repo post g :
  wf_db db ->
  upsert_user_and_repos db nm l now = (db', r) -> committed r ->
  l = pre ++ repo :: post -> get_id repo = Some g ->
  ~ In g (valid_ids post) ->
  exists uid row,
    query_user nm (users db') = Some (mkUser uid nm (Some now))
    /\ rows_for uid g (repositories db') = [row]
    /\ stored_attrs row = attrs_of repo.
Proof.
  intros Hwf E Hc Hl Eg Hlast.
  pose proof (upsert_wf nm l now Hwf) as Hwf'. rewrite E in Hwf'.
  simpl in Hwf'. destruct Hwf' as [_ [_ [_ Hown']]].
  destruct Hwf as [_ [_ [Hpk Hown]]].
  pose proof (upsert_inv _ _ _ _ E) as H.
  destruct H as [[_ ->] | [tx [user [new [rows H]]]]]; [now elim Hc|].
  destruct H as [Hu [Husers [Hf [Hrepos [Hrows _]]]]].
  apply get_or_create_user_inv in Hu. destruct Hu as [_ [Hq _]].
  pose proof (query_user_set_last_synced_at _ now _ Hq eq_refl) as Hq'.
  rewrite <- Husers in Hq'.
  assert (Hg : In g (valid_ids l)).
  { apply In_valid_ids. exists repo. split; auto.
    rewrite Hl. apply in_or_app. right. now left. }
  destruct (@committed_rows_cover _ _ _ _ _ _ Hrepos Hrows g Hg)
    as [row [Hin [Hru Hrg]]].
  destruct (@stored_is_last _ _ _ _ row Hpk Hown Hf Hin Hru)
    as [repo' [Hl' Ha]].
  rewrite Hrg, Hl, (@last_with_id_split g pre repo post Eg Hlast) in Hl'.
  injection Hl' as <-.
  exists (User_id user), row. repeat split; auto.
  rewrite <- Hru, <- Hrg. now apply rows_for_unique.
Qed.

(** C3.  In every store the service can reach, and so after every call, no
    two rows of [repositories] have the same (user_id, github_id).  In
    particular, when a user is reconciled a second time and the call
    commits, the record that carries an external id (the last one, if
    several do) has exactly one row, and the row has the name of that
    record. *)
Theorem one_row_per_external_id :
  (forall db nm l now,
      reachable db ->
      NoDup (map owner_and_id
                 (repositories (fst (upsert_user_and_repos db nm l now)))))
  /\ (forall db nm l1 t1 l2 t2 db2 r2 pre repo post g n,
         reachable db ->
         upsert_user_and_repos
           (fst (upsert_user_and_repos db nm l1 t1)) nm l2 t2 = (db2, r2) ->
         committed r2 ->
         l2 = pre ++ repo :: post ->
         get_id repo = Some g -> get_name repo = Some n ->
         ~ In g (valid_ids post) ->
         exists user row,
           query_user nm (users db2) = Some user
           /\ rows_for (User_id user) g (repositories db2) = [row]
           /\ name row = n).
Proof.
  split.
  - intros db nm l now Hr.
    apply (reachable_upsert nm l now), reachable_wf in Hr.
    now destruct Hr as [_ [_ [_ Hown]]].
  - intros db nm l1 t1 l2 t2 db2 r2 pre repo post g n Hr E Hc Hl Eg En Hlast.
    apply (reachable_upsert nm l1 t1), reachable_wf in Hr.
    destruct (@row_of_last_record _ _ _ _ _ _ _ _ _ _ Hr E Hc Hl Eg Hlast)
      as [uid [row [Hq [Hrows Ha]]]].
    exists (mkUser uid nm (Some t2)), row. repeat split; auto.
    unfold stored_attrs, attrs_of in Ha. congruence.
Qed.

(** C2.  A call ends in one of two ways.  Either the store refused a
    statement: the caller gets the store's error and the tables are the
    ones before the call.  Or the transaction was published whole: the
    user row exists, carries the new [last_synced_at], every record with
    an id has its row, no other row of the user is left, and (in a store
    that satisfies the constraints of [models.py]) every row of the user
    holds the [name], [html_url], [description] and [language] of the last
    record that carries its external id; the call then returns, or raises
    the response validation error, never the store's. *)
Theorem upsert_all_or_nothing db nm l now db' r :
  upsert_user_and_repos db nm l now = (db', r) ->
  (r = Raise DBAPIError /\ db' = db)
  \/ (((exists resp, r = Return resp) \/ r = Raise ValidationError)
      /\ exists user,
          query_user nm (users db') = Some user
          /\ last_synced_at user = Some now
          /\ (forall g, In g (valid_ids l) ->
                        exists row, In row (repositories db')
                                    /\ user_id row = User_id user
                                    /\ github_id row = g)
          /\ (forall row, In row (repositories db') ->
                          user_id row = User_id user ->
                          In (github_id row) (valid_ids l))
          /\ (wf_db db ->
              forall row, In row (repositories db') ->
                          user_id row = User_id user ->
                          exists repo,
                            last_with_id (github_id row) l = Some repo
                            /\ stored_attrs row = attrs_of repo)).
Proof.
  intros E.
  pose proof (upsert_inv _ _ _ _ E) as H.
  destruct H as [[-> ->] | [tx [user [new [rows H]]]]]; [now left|].
  right.
  destruct H as [Hu [Husers [Hf [Hrepos [Hrows ->]]]]].
  apply get_or_create_user_inv in Hu. destruct Hu as [_ [Hq _]].
  pose proof (query_user_set_last_synced_at _ now _ Hq eq_refl) as Hq'.
  rewrite <- Husers in Hq'.
  assert (Hin : In (mkUser (User_id user) nm (Some now)) (users db')).
  { unfold query_user in Hq'. now apply find_some in Hq'. }
  split.
  - destruct (@read_back_outcome db' (User_id user) new _ Hin eq_refl)
      as [[resp [-> _]] | ->]; eauto.
  - exists (mkUser (User_id user) nm (Some now)). simpl.
    split; [exact Hq'|]. split; [reflexivity|]. split; [|split].
    + eapply committed_rows_cover; eauto.
    + eapply committed_rows_subset; eauto.
    + intros [_ [_ [Hpk Hown]]] row Hrow Hru.
      exact (@stored_is_last _ _ _ _ row Hpk Hown Hf Hrow Hru).
Qed.

(** C5, as the code has it.  When a call commits, the row of a record that
    carries an external id (the last record, if several carry the id)
    holds the record's [name], [html_url], [description] and [language]; a
    missing [description] or [language] is stored as NULL, and dropping
    them from records does not make the call fail.  A record whose [name]
    or [html_url] is missing makes the store refuse the transaction
    ([nullable=False]): the call raises and nothing is stored. *)
Theorem record_overwrites_row db nm l now db' r pre repo post g :
  wf_db db ->
  upsert_user_and_repos db nm l now = (db', r) ->
  l = pre ++ repo :: post -> get_id repo = Some g ->
  ~ In g (valid_ids post) ->
  (committed r ->
   exists user row,
     query_user nm (users db') = Some user
     /\ rows_for (User_id user) g (repositories db') = [row]
     /\ get_name repo = Some (name row)
     /\ get_html_url repo = Some (html_url row)
     /\ description row = get_description repo
     /\ language row = get_language repo)
  /\ (get_name repo = None \/ get_html_url repo = None ->
      r = Raise DBAPIError /\ db' = db)
  /\ (committed r ->
      forall l', Forall2 drops_optional l' l ->
                 committed (snd (upsert_user_and_repos db nm l' now))).
Proof.
  intros Hwf E Hl Eg Hlast.
  assert (Hrow : committed r ->
                 exists uid row,
                   query_user nm (users db') = Some (mkUser uid nm (Some now))
                   /\ rows_for uid g (repositories db') = [row]
                   /\ stored_attrs row = attrs_of repo).
  { intros Hc. eapply row_of_last_record; eauto. }
  split; [|split].
  - intros Hc. destruct (Hrow Hc) as [uid [row [Hq [Hrows Ha]]]].
    exists (mkUser uid nm (Some now)), row.
    unfold stored_attrs, attrs_of in Ha.
    repeat split; auto; congruence.
  - intros Hmiss. pose proof (upsert_inv _ _ _ _ E) as H.
    destruct H as [[-> ->] | [tx [user [new [rows [_ [_ [_ [_ [_ Hr]]]]]]]]]];
      auto.
    exfalso.
    destruct (Hrow ltac:(rewrite Hr; apply read_back_committed))
      as [uid [row [_ [_ Ha]]]].
    unfold stored_attrs, attrs_of in Ha. destruct Hmiss; congruence.
  - intros Hc l' Hd. apply (upsert_weaker _ _ _ Hd). now rewrite E.
Qed.

(** *** Records without an id *)

Lemma upsert_loop_skip tbl uid l s :
  fold_left (upsert_repo tbl uid) (filter has_id l) s
  = fold_left (upsert_repo tbl uid) l s.
Proof.
  revert s. induction l as [|repo l IH]; intros s; simpl; auto.
  unfold has_id at 1. destruct (get_id repo) as [g|] eqn:Eg; simpl.
  - apply IH.
  - rewrite IH. f_equal. unfold upsert_repo. now rewrite Eg.
Qed.

Lemma valid_ids_skip l : valid_ids (filter has_id l) = valid_ids l.
Proof.
  induction l as [|repo l IH]; simpl; auto.
  unfold has_id at 1. destruct (get_id repo) as [g|] eqn:Eg; simpl; auto.
  now rewrite Eg, IH.
Qed.

Lemma upsert_skips_records_without_id db nm l now :
  upsert_user_and_repos db nm (filter has_id l) now
  = upsert_user_and_repos db nm l now.
Proof.
  unfold upsert_user_and_repos.
  destruct (get_or_create_user nm (users db)) as [[[tx user] new]|]; auto.
  unfold upsert_repos. now rewrite upsert_loop_skip.
Qed.

(** *** The order of the response *)

Lemma string_leb_trans s1 s2 s3 :
  String.leb s1 s2 = true -> String.leb s2 s3 = true ->
  String.leb s1 s3 = true.
Proof.
  unfold String.leb. revert s2 s3.
  induction s1 as [|c1 s1 IH]; intros [|c2 s2] [|c3 s3]; simpl; auto;
    try discriminate.
  unfold Ascii.compare.
  destruct (N.compare_spec (N_of_ascii c1) (N_of_ascii c2)) as [E12|L12|G12];
    destruct (N.compare_spec (N_of_ascii c2) (N_of_ascii c3)) as [E23|L23|G23];
    try discriminate; intros H1 H2.
  - rewrite E12, E23, N.compare_refl. now apply IH with s2.
  - rewrite E12. now rewrite (proj2 (N.compare_lt_iff _ _) L23).
  - rewrite <- E23. now rewrite (proj2 (N.compare_lt_iff _ _) L12).
  - now rewrite (proj2 (N.compare_lt_iff _ _) (N.lt_trans _ _ _ L12 L23)).
Qed.

Lemma insert_by_name_perm le r l :
  Permutation (insert_by_name le r l) (r :: l).
Proof.
  induction l as [|x l IH]; simpl; auto.
  destruct (le (name r) (name x)); auto.
  rewrite IH. apply perm_swap.
Qed.

Lemma order_by_name_perm le l : Permutation (order_by_name le l) l.
Proof.
  induction l as [|x l IH]; simpl; auto.
  rewrite insert_by_name_perm. now constructor.
Qed.

Lemma insert_by_name_sorted r l :
  StronglySorted name_le l ->
  StronglySorted name_le (insert_by_name collation_le r l).
Proof.
  induction 1 as [|x l Hs IH Hx]; simpl.
  - repeat constructor.
  - destruct (collation_le (name r) (name x)) eqn:E.
    + constructor; [now constructor|].
      constructor; auto.
      eapply Forall_impl; [|exact Hx].
      intros y Hy. unfold name_le in *. eapply collation_le_trans; eauto.
    + constructor; auto.
      rewrite Forall_forall in *. intros y Hy.
      apply (Permutation_in _ (insert_by_name_perm collation_le r l)) in Hy.
      destruct Hy as [<- | Hy]; auto.
      unfold name_le.
      destruct (collation_le_total (name r) (name x)); congruence.
Qed.

Lemma order_by_name_sorted l :
  StronglySorted name_le (order_by_name collation_le l).
Proof.
  induction l as [|x l IH]; simpl; [constructor|].
  now apply insert_by_name_sorted.
Qed.

Lemma traverse_Forall2 {A B} (f : A -> option B) l ys :
  traverse f l = Some ys -> Forall2 (fun x y => f x = Some y) l ys.
Proof.
  revert ys. induction l as [|x l IH]; simpl; intros ys H.
  - injection H as <-. constructor.
  - destruct (f x) as [y|] eqn:E; [|discriminate].
    destruct (traverse f l) as [ys'|]; [|discriminate].
    injection H as <-. constructor; auto.
Qed.

Lemma from_orm_name row rb : from_orm row = Some rb -> rb_name rb = name row.
Proof.
  unfold from_orm. destruct (validate_http_url _); [|discriminate].
  now intros [= <-].
Qed.

(** C7.  The list of a response holds the rows the store has for the user
    after the commit, each exactly once, in ascending order of [name] under
    the collation of the column: whichever total and transitive comparison
    the database applies in [ORDER BY name].  Under the binary collation
    this is the case-sensitive code-unit order, where upper case sorts
    before lower case. *)
Theorem response_sorted_by_name db nm l now db' resp :
  upsert_user_and_repos db nm l now = (db', Return resp) ->
  exists user rows,
    query_user nm (users db') = Some user
    /\ Permutation rows (repositories_of (User_id user) (repositories db'))
    /\ StronglySorted name_le rows
    /\ Forall2 (fun row rb => from_orm row = Some rb)
               rows (resp_repositories resp)
    /\ map (@rb_name HttpUrl) (resp_repositories resp) = map name rows.
Proof.
  intros E. apply upsert_inv in E.
  destruct E as [[_ [=]] | [tx [user [new [rows H]]]]].
  destruct H as [Hu [Husers [_ [_ [_ Hr]]]]].
  apply get_or_create_user_inv in Hu. destruct Hu as [_ [Hq _]].
  pose proof (query_user_set_last_synced_at _ now _ Hq eq_refl) as Hq'.
  rewrite <- Husers in Hq'.
  unfold read_back in Hr.
  destruct (find _ (users db')); [|discriminate].
  destruct (traverse _ _) as [rs|] eqn:Et; [|discriminate].
  injection Hr as ->. simpl.
  apply traverse_Forall2 in Et.
  exists (mkUser (User_id user) nm (Some now)),
    (order_by_name collation_le
                   (repositories_of (User_id user) (repositories db'))).
  simpl. repeat split; auto.
  - apply order_by_name_perm.
  - apply order_by_name_sorted.
  - induction Et as [|row rb rows' rs' Hrb _ IH]; simpl; auto.
    f_equal; auto. now apply from_orm_name.
Qed.

(** *** The refresh job *)







(** What [fetch_github_repos] raises for the replies of the upstream. *)
Lemma fetch_github_repos_failures http_get nm :
  (forall body, http_get (repos_url nm) = Reply 404 body ->
                fetch_github_repos http_get nm
                = Raise (HTTPException 404 "GitHub user not found."))
  /\ (forall code body,
         code <> 404 -> code <> 200 ->
         http_get (repos_url nm) = Reply code body ->
         fetch_github_repos http_get nm
         = Raise (HTTPException 502
                    ("Error querying GitHub: " ++ string_of_Z code)%string))
  /\ (http_get (repos_url nm) = Reply 200 JsonOther ->
      fetch_github_repos http_get nm
      = Raise (HTTPException 502 "Unexpected response from GitHub API.")).
Proof.
  unfold fetch_github_repos, repos_url. repeat split.
  - intros body ->. reflexivity.
  - intros code body H4 H2 ->.
    apply Z.eqb_neq in H4, H2. now rewrite H4, H2.
  - intros ->. reflexivity.
Qed.

(** *** Calling again *)

Lemma upsert_now_irrelevant db nm l t1 t2 :
  repositories (fst (upsert_user_and_repos db nm l t1))
  = repositories (fst (upsert_user_and_repos db nm l t2)).
Proof.
  unfold upsert_user_and_repos.
  destruct (get_or_create_user nm (users db)) as [[[tx user] new]|]; auto.
  destruct (flush _ _); auto.
Qed.

Lemma query_user_map nm (f : User -> User) tbl u :
  (forall v, username (f v) = username v) ->
  query_user nm tbl = Some u -> query_user nm (map f tbl) = Some (f u).
Proof.
  unfold query_user. intros Hf.
  induction tbl as [|v tbl IH]; simpl; [discriminate|].
  rewrite Hf. destruct (String.eqb (username v) nm); auto.
  now intros [= ->].
Qed.

Lemma user_kept db nm u nm' l now :
  query_user nm (users db) = Some u ->
  exists u', query_user nm (users (fst (upsert_user_and_repos db nm' l now)))
             = Some u'.
Proof.
  intros Hq.
  destruct (upsert_user_and_repos db nm' l now) as [db' r] eqn:E. simpl.
  apply upsert_inv in E.
  destruct E as [[-> _] | [tx [user [new [rows H]]]]]; [eauto|].
  destruct H as [Hu [-> _]].
  apply get_or_create_user_inv in Hu. destruct Hu as [_ [_ Hnew]].
  assert (Htx : query_user nm tx = Some u).
  { destruct new.
    - destruct Hnew as [_ [-> _]]. unfold query_user in *.
      now rewrite find_app, Hq.
    - now destruct Hnew as [_ ->]. }
  eexists. unfold set_last_synced_at. apply query_user_map; eauto.
  intros v. now destruct (User_id v =? User_id user).
Qed.

Lemma later_user db db' nm u :
  later db db' -> query_user nm (users db) = Some u ->
  exists u', query_user nm (users db') = Some u'.
Proof.
  induction 1 as [|db db' nm' l now _ IH]; intros Hq; [eauto|].
  destruct (IH Hq) as [u' Hq']. eapply user_kept; eauto.
Qed.

Lemma in_im_get pk a m :
  NoDup (map fst m) -> In (pk, a) m -> im_get pk m = Some a.
Proof.
  induction m as [|[k b] m IH]; simpl; intros Hnd Hin; [destruct Hin|].
  inversion Hnd as [|? ? Hnin Hnd']; subst.
  destruct Hin as [[= -> ->] | Hin].
  - now rewrite Z.eqb_refl.
  - destruct (k =? pk) eqn:E; auto.
    apply Z.eqb_eq in E. subst. elim Hnin.
    now apply (in_map fst) in Hin.
Qed.

Lemma find_by_id tbl r :
  NoDup (map Repository_id tbl) -> In r tbl ->
  find (fun x => Repository_id x =? Repository_id r) tbl = Some r.
Proof.
  induction tbl as [|x tbl IH]; simpl; intros Hnd Hin; [destruct Hin|].
  inversion Hnd as [|? ? Hnin Hnd']; subst.
  destruct Hin as [-> | Hin].
  - now rewrite Z.eqb_refl.
  - destruct (Repository_id x =? Repository_id r) eqn:E; auto.
    apply Z.eqb_eq in E. elim Hnin. rewrite E. now apply in_map.
Qed.

Lemma filter_all {A} (p : A -> bool) l :
  (forall x, In x l -> p x = true) -> filter p l = l.
Proof.
  induction l as [|x l IH]; simpl; intros H; auto.
  rewrite (H x) by auto. f_equal. auto.
Qed.

Lemma map_id_on {A} (f : A -> A) l :
  (forall x, In x l -> f x = x) -> map f l = l.
Proof.
  induction l as [|x l IH]; simpl; intros H; auto.
  rewrite (H x) by auto. f_equal. auto.
Qed.

Lemma option_eqb_refl (o : option string) : option_eqb String.eqb o o = true.
Proof. destruct o; simpl; auto. apply String.eqb_refl. Qed.

Lemma can_update_stored tbl r :
  NoDup (map Repository_id tbl) -> In r tbl ->
  can_update (Repository_id r) (stored_attrs r) tbl = true.
Proof.
  intros Hnd Hin. unfold can_update, update_repository.
  rewrite (find_by_id _ _ Hnd Hin). simpl.
  unfold sent_ok. now rewrite !String.eqb_refl, !option_eqb_refl.
Qed.

Lemma set_attrs_stored r :
  set_attrs (name r) (html_url r) (stored_attrs r) r = r.
Proof. now destruct r. Qed.

(** A store that already holds, for every record with an id, a row with
    the attributes of the last such record, is left as it is by the
    statements of the call. *)
Lemma flush_again tbl uid l :
  NoDup (map Repository_id tbl) -> NoDup (map owner_and_id tbl) ->
  (forall row, In row tbl -> user_id row = uid ->
               exists repo, last_with_id (github_id row) l = Some repo
                            /\ stored_attrs row = attrs_of repo) ->
  (forall g, In g (valid_ids l) ->
             exists row, In row tbl /\ user_id row = uid /\ github_id row = g) ->
  flush (upsert_repos tbl uid l) (delete_not_in uid (valid_ids l) tbl)
  = Some tbl.
Proof.
  intros Hpk Hown Hlast Hcov.
  assert (Hdel : delete_not_in uid (valid_ids l) tbl = tbl).
  { apply filter_all. intros row Hin.
    destruct (user_id row =? uid) eqn:E; auto. simpl.
    apply Z.eqb_eq in E. destruct (Hlast row Hin E) as [repo [Hl _]].
    apply last_with_id_In in Hl. destruct Hl as [Hr Hg].
    assert (Hv : In (github_id row) (valid_ids l))
      by (apply In_valid_ids; eauto).
    apply in_ids_In in Hv. now rewrite Hv. }
  assert (Hnew : new_objects tbl uid l = []).
  { destruct (new_objects tbl uid l) as [|o rest] eqn:E; auto.
    assert (Ho : In o (new_objects tbl uid l)) by (rewrite E; now left).
    apply new_objects_In in Ho.
    destruct Ho as [repo [g [Hin [Eg [Eq _]]]]].
    destruct (Hcov g) as [row [Hr [Hu Hg]]].
    { apply In_valid_ids. eauto. }
    elim (@query_repository_None _ _ _ Eq row Hr Hu Hg). }
  assert (Hm : forall pk a,
             In (pk, a) (identity_map (upsert_repos tbl uid l)) ->
             exists row, In row tbl /\ Repository_id row = pk
                         /\ a = stored_attrs row).
  { intros pk a Hin.
    pose proof (in_im_get _ _ _ (upsert_repos_NoDup tbl uid l) Hin) as Hget.
    apply (in_map fst) in Hin. simpl in Hin.
    apply upsert_repos_keys in Hin.
    destruct Hin as [row [Hr [Hid [Hu _]]]].
    exists row. repeat split; auto.
    destruct (Hlast row Hr Hu) as [repo [Hl Ha]].
    unfold upsert_repos in Hget. rewrite upsert_loop_identity in Hget.
    rewrite <- Hid in Hget.
    rewrite (find_last_ext _ (fun repo => option_eqb Z.eqb (get_id repo)
                                            (Some (github_id row)))) in Hget
      by (intros x; now apply loads_own_row).
    unfold last_with_id in Hl. rewrite Hl in Hget. simpl in Hget.
    congruence. }
  rewrite Hdel. unfold flush.
  destruct (flush_updates_accepted (identity_map (upsert_repos tbl uid l)) tbl
                                   (upsert_repos_NoDup tbl uid l))
    as [t1 E1].
  { intros pk a Hin. destruct (Hm pk a Hin) as [row [Hr [<- ->]]].
    now apply can_update_stored. }
  rewrite E1.
  apply flush_updates_written in E1; [|apply upsert_repos_NoDup].
  rewrite upsert_repos_pending, Hnew. simpl. f_equal.
  rewrite E1. apply map_id_on. intros r Hr.
  unfold written.
  destruct (im_get (Repository_id r) _) as [a|] eqn:Eg; auto.
  apply im_get_In in Eg. destruct (Hm _ _ Eg) as [row [Hrow [Hid ->]]].
  assert (row = r) by (apply (NoDup_map_eq Repository_id tbl); auto).
  subst row. simpl. apply set_attrs_stored.
Qed.

Lemma read_back_inv db uid new resp :
  read_back db uid new = Return resp ->
  exists user rs,
    find (fun u => User_id u =? uid) (users db) = Some user
    /\ traverse from_orm (order_by_name collation_le
                                          (repositories_of uid (repositories db)))
       = Some rs
    /\ resp = mkUserSyncResponse (username user)
                                 (if new then "new" else "updated") new rs.
Proof.
  unfold read_back.
  destruct (find _ (users db)) as [user|]; [|discriminate].
  destruct (traverse _ _) as [rs|]; [|discriminate].
  intros [= <-]. eauto.
Qed.

(** C4, as the code has it.  Calling twice in a row with the same list
    leaves the [repositories] table after the second call as it was after
    the first.  When the first call returns, it returns "new" if the
    username was never seen, and the second call returns too, with
    "updated" and the same list of repositories.  Once a call for the
    username has committed, every later call for it that returns, returns
    "updated". *)
Theorem reconcile_twice db nm l t1 t2 db1 r1 db2 r2 :
  wf_db db ->
  upsert_user_and_repos db nm l t1 = (db1, r1) ->
  upsert_user_and_repos db1 nm l t2 = (db2, r2) ->
  repositories db2 = repositories db1
  /\ (forall resp1,
         r1 = Return resp1 ->
         (query_user nm (users db) = None -> status resp1 = "new")
         /\ exists resp2,
             r2 = Return resp2 /\ status resp2 = "updated"
             /\ resp_repositories resp2 = resp_repositories resp1)
  /\ (committed r1 ->
      forall dbk l' t' db' resp',
        later db1 dbk ->
        upsert_user_and_repos dbk nm l' t' = (db', Return resp') ->
        status resp' = "updated").
Proof.
  intros Hwf E1 E2.
  assert (Hlater : committed r1 ->
                   forall dbk l' t' db' resp',
                     later db1 dbk ->
                     upsert_user_and_repos dbk nm l' t' = (db', Return resp') ->
                     status resp' = "updated").
  { intros Hc dbk l' t' db' resp' Hl E.
    pose proof E1 as E1'. apply upsert_committed in E1'; auto.
    destruct E1' as [uid [new [Hq _]]].
    pose proof Hl as Hl'. eapply later_user in Hl'; [|exact Hq].
    destruct Hl' as [u' Hq'].
    apply upsert_committed in E; [|discriminate].
    destruct E as [uid' [new' [_ [Hnew [_ [_ [_ Hr]]]]]]].
    destruct Hr as [[resp [[= <-] [Hs _]]] | [=]].
    rewrite Hs. destruct new'; auto.
    destruct Hnew as [_ Hnew]. rewrite Hnew in Hq'; [discriminate | auto]. }
  pose proof (upsert_wf nm l t1 Hwf) as Hwf1. rewrite E1 in Hwf1.
  simpl in Hwf1. destruct Hwf1 as [_ [_ [Hpk1 Hown1]]].
  destruct Hwf as [_ [_ [Hpk Hown]]].
  pose proof (upsert_inv _ _ _ _ E1) as H1.
  destruct H1 as [[-> ->] | [tx [user [new [rows H1]]]]].
  - (* the first call was refused *)
    repeat split; auto; try discriminate.
    pose proof (upsert_now_irrelevant db nm l t1 t2) as Hn.
    now rewrite E1, E2 in Hn.
  - destruct H1 as [Hu [Husers [Hf [Hrepos [Hrows Hr1]]]]].
    pose proof (get_or_create_user_inv _ _ Hu) as [_ [Hq Hnew]].
    pose proof (query_user_set_last_synced_at _ t1 _ Hq eq_refl) as Hq1.
    rewrite <- Husers in Hq1.
    assert (Hu2 : get_or_create_user nm (users db1)
                  = Some (users db1, mkUser (User_id user) nm (Some t1), false)).
    { unfold get_or_create_user. now rewrite Hq1. }
    assert (Hf2 : flush (upsert_repos (repositories db1) (User_id user) l)
                        (delete_not_in (User_id user) (valid_ids l)
                                       (repositories db1))
                  = Some (repositories db1)).
    { apply flush_again; auto.
      - intros row Hin Hru.
        apply (@stored_is_last _ _ _ _ row Hpk Hown Hf Hin Hru).
      - intros g Hg.
        apply (@committed_rows_cover _ _ _ _ _ _ Hrepos Hrows g Hg). }
    pose proof (@upsert_commits db1 nm l t2 _ _ _ _ Hu2 Hf2) as E2'.
    simpl in E2'. rewrite E2 in E2'. injection E2' as -> ->.
    simpl. repeat split; auto.
    + intros Hnone. rewrite Hr1 in H.
      apply read_back_inv in H. destruct H as [u [rs [_ [_ ->]]]]. simpl.
      destruct new; auto. destruct Hnew as [Hsome _]. congruence.
    + rewrite Hr1 in H.
      apply read_back_inv in H. destruct H as [u [rs [_ [Ht ->]]]]. simpl.
      unfold read_back. simpl.
      destruct (find_exists (fun u => User_id u =? User_id user)
                  (set_last_synced_at (User_id user) t2 (users db1))
                  (mkUser (User_id user) nm (Some t2))) as [u2 ->].
      * pose proof (query_user_set_last_synced_at _ t2 _ Hq1 eq_refl) as Hq2.
        simpl in Hq2. unfold query_user in Hq2.
        now apply find_some in Hq2.
      * simpl. apply Z.eqb_refl.
      * rewrite Ht. eexists. repeat split.
Qed.

(** *** Counting the rows of the user *)

Lemma NoDup_github_id_of_user uid tbl :
  NoDup (map owner_and_id tbl) ->
  NoDup (map github_id (repositories_of uid tbl)).
Proof.
  intros Hnd. unfold repositories_of.
  apply (NoDup_map_filter owner_and_id (fun r => user_id r =? uid)) in Hnd.
  apply (NoDup_map_inv (pair uid)).
  rewrite map_map.
  erewrite map_ext_in; [exact Hnd|].
  intros r Hr. apply filter_In in Hr. destruct Hr as [_ Hu].
  apply Z.eqb_eq in Hu. unfold owner_and_id. now rewrite Hu.
Qed.

(** C6.  A record without an external id changes nothing: the call does
    what it does on the list without such records, errors included.  So a
    list whose records with an id carry two distinct ids, whatever records
    without id it also holds, leaves the user with exactly two rows when
    the call commits. *)
Theorem records_without_id_skipped db nm l now :
  upsert_user_and_repos db nm l now
  = upsert_user_and_repos db nm (filter has_id l) now
  /\ forall db' r ga gb,
      wf_db db ->
      upsert_user_and_repos db nm l now = (db', r) -> committed r ->
      valid_ids l = [ga; gb] -> ga <> gb ->
      exists user,
        query_user nm (users db') = Some user
        /\ List.length (repositories_of (User_id user) (repositories db'))
           = 2%nat.
Proof.
  split; [symmetry; apply upsert_skips_records_without_id|].
  intros db' r ga gb Hwf E Hc Hids Hne.
  pose proof (upsert_wf nm l now Hwf) as Hwf'. rewrite E in Hwf'.
  simpl in Hwf'. destruct Hwf' as [_ [_ [_ Hown']]].
  apply upsert_committed in E; auto.
  destruct E as [uid [new [Hq [_ [_ [Hsub [Hcov _]]]]]]].
  exists (mkUser uid nm (Some now)). split; auto. simpl.
  rewrite <- (length_map github_id).
  assert (Hp : Permutation
                 (map github_id (repositories_of uid (repositories db')))
                 [ga; gb]).
  { apply NoDup_Permutation.
    - now apply NoDup_github_id_of_user.
    - repeat constructor; simpl; intuition.
    - intros g. rewrite <- Hids. split.
      + rewrite in_map_iff. intros [row [<- Hin]].
        apply In_repositories_of in Hin. destruct Hin. now apply Hsub.
      + intros Hg. apply Hcov in Hg. destruct Hg as [row [Hin [Hu Hg]]].
        apply in_map_iff. exists row. split; auto.
        now apply In_repositories_of. }
  now rewrite (Permutation_length Hp).
Qed.

(** ** Further properties *)

(** *** fetch_github_repos *)

Lemma fetch_at_most_five http_get nm data :
  fetch_github_repos http_get nm = Return data -> (List.length data <= 5)%nat.
Proof.
  unfold fetch_github_repos.
  destruct (http_get _) as [|code body]; [discriminate|].
  destruct (code =? 404); [discriminate|].
  destruct (negb (code =? 200)); [discriminate|].
  destruct body as [|full|]; try discriminate.
  intros H. assert (E : data = firstn 5 full) by congruence.
  rewrite E. apply firstn_le_length.
Qed.

(** X1.  The fetch returns exactly when the upstream answers 200 with a
    list, and then it returns the first five elements of the list: never
    more than five records reach the reconcile. *)
Theorem fetch_returns_first_five http_get nm data :
  (fetch_github_repos http_get nm = Return data
   <-> exists full, http_get (repos_url nm) = Reply 200 (JsonList full)
                    /\ data = firstn 5 full)
  /\ (fetch_github_repos http_get nm = Return data ->
      (List.length data <= 5)%nat).
Proof.
  assert (H : fetch_github_repos http_get nm = Return data
              <-> exists full, http_get (repos_url nm) = Reply 200 (JsonList full)
                               /\ data = firstn 5 full).
  { unfold fetch_github_repos, repos_url. split.
    - destruct (http_get _) as [|code body]; [discriminate|].
      destruct (code =? 404) eqn:E4; [discriminate|].
      destruct (code =? 200) eqn:E2; simpl; [|discriminate].
      apply Z.eqb_eq in E2. subst code.
      destruct body as [|full|]; try discriminate.
      intros [= <-]. eauto.
    - intros [full [-> ->]]. reflexivity. }
  split; [exact H|].
  intros E. apply H in E. destruct E as [full [_ ->]].
  apply firstn_le_length.
Qed.

(** X2.  An [HTTPException] of the fetch has status 404 or 502: 404 exactly
    when the upstream answered 404 (whatever the body), 502 when it answered
    another status than 200, or 200 with a JSON body that is not a list. *)
Theorem fetch_http_exception_status http_get nm code detail :
  fetch_github_repos http_get nm = Raise (HTTPException code detail) ->
  exists status body,
    http_get (repos_url nm) = Reply status body
    /\ ((status = 404 /\ code = 404 /\ detail = "GitHub user not found.")
        \/ (status <> 404 /\ status <> 200 /\ code = 502
            /\ detail = ("Error querying GitHub: " ++ string_of_Z status)%string)
        \/ (status = 200 /\ body = JsonOther /\ code = 502
            /\ detail = "Unexpected response from GitHub API.")).
Proof.
  unfold fetch_github_repos, repos_url.
  destruct (http_get _) as [|status body]; [discriminate|].
  intros H. exists status, body. split; auto.
  destruct (status =? 404) eqn:E4.
  - apply Z.eqb_eq in E4. injection H as <- <-. auto.
  - apply Z.eqb_neq in E4.
    destruct (status =? 200) eqn:E2; simpl in H.
    + apply Z.eqb_eq in E2.
      destruct body; try discriminate. injection H as <- <-.
      right. right. auto.
    + apply Z.eqb_neq in E2. injection H as <- <-.
      right. left. auto.
Qed.

(** *** refresh_user and the loop of refresh_all_users *)

Lemma upsert_raises db nm l now db' e :
  upsert_user_and_repos db nm l now = (db', Raise e) ->
  (e = DBAPIError /\ db' = db) \/ e = ValidationError.
Proof.
  intros E. pose proof (upsert_inv _ _ _ _ E) as H.
  destruct H as [[-> [= ->]] | [tx [user [new [rows H]]]]]; [now left|].
  right. apply upsert_committed in E.
  - destruct E as [_ [_ [_ [_ [_ [_ [_ [[resp [[=] _]] | [= ->]]]]]]]]].
    reflexivity.
  - destruct H as [_ [_ [_ [_ [_ ->]]]]]. apply read_back_committed.
Qed.

(** What a call of [refresh_user] can leave. *)
Lemma refresh_user_inv http_get db nm now db' r out :
  refresh_user http_get db nm now = (db', r, out) ->
  (forall code detail, r <> Raise (HTTPException code detail))
  /\ (out = []
      \/ exists code detail,
          fetch_github_repos http_get nm = Raise (HTTPException code detail)
          /\ out = [error_line nm detail] /\ db' = db /\ r = Return tt)
  /\ (forall data,
         fetch_github_repos http_get nm = Return data ->
         db' = fst (upsert_user_and_repos db nm data now) /\ out = []).
Proof.
  unfold refresh_user.
  destruct (fetch_github_repos http_get nm) as [data|e] eqn:Ef.
  - destruct (upsert_user_and_repos db nm data now) as [db1 [resp|e]] eqn:Eu.
    + intros [= <- <- <-]. split; [discriminate|]. split; auto.
      intros data' [= <-]. rewrite Eu. auto.
    + destruct (upsert_raises _ _ _ _ Eu) as [[-> ->] | ->];
        intros [= <- <- <-]; (split; [discriminate|]); (split; auto);
        intros data' [= <-]; rewrite Eu; auto.
  - destruct e; intros [= <- <- <-];
      (split; [try discriminate|]); (split; [auto|discriminate]).
    right. exists status_code, detail. repeat split; auto.
Qed.

(** X3.  [refresh_user] never lets an [HTTPException] out.  It prints
    nothing, or the one line of a failed fetch, and then the store is the
    one it was given; when the fetch returns, the store is the one the
    reconcile leaves. *)
Theorem refresh_user_outcome http_get db nm now db' r out :
  refresh_user http_get db nm now = (db', r, out) ->
  (forall code detail, r <> Raise (HTTPException code detail))
  /\ (out = []
      \/ exists code detail,
          fetch_github_repos http_get nm = Raise (HTTPException code detail)
          /\ out = [error_line nm detail] /\ db' = db /\ r = Return tt)
  /\ (forall data,
         fetch_github_repos http_get nm = Return data ->
         db' = fst (upsert_user_and_repos db nm data now) /\ out = []).
Proof. exact (@refresh_user_inv http_get db nm now db' r out). Qed.

(** X4.  An exception of the fetch that is not an [HTTPException] (no reply
    from the upstream, or a 200 reply whose body is not JSON) is not caught:
    the job ends there, with the store as it was, and the usernames that
    follow are not fetched. *)
Theorem fetch_crash_aborts_job http_get nm rest clock db e :
  fetch_github_repos http_get nm = Raise e ->
  (forall code detail, e <> HTTPException code detail) ->
  ((e = RequestError /\ http_get (repos_url nm) = NoReply)
   \/ (e = JSONDecodeError /\ http_get (repos_url nm) = Reply 200 NotJson))
  /\ refresh_loop http_get (nm :: rest) clock db = mkRun db (Raise e) [] [nm].
Proof.
  intros Hf Hne. split.
  - unfold fetch_github_repos, repos_url in *.
    destruct (http_get _) as [|status body].
    + injection Hf as <-. now left.
    + destruct (status =? 404) eqn:E4.
      { injection Hf as <-. now elim (Hne 404 "GitHub user not found."). }
      destruct (status =? 200) eqn:E2; simpl in Hf.
      * apply Z.eqb_eq in E2. subst status.
        destruct body; try discriminate; injection Hf as <-.
        -- now right.
        -- now elim (Hne 502 "Unexpected response from GitHub API.").
      * injection Hf as <-.
        now elim (Hne 502 ("Error querying GitHub: " ++ string_of_Z status)%string).
  - simpl. unfold refresh_user. rewrite Hf.
    destruct e; try reflexivity. now elim (Hne status_code detail).
Qed.

(** X5.  An exception of the reconcile is not caught either: when the store
    refuses the transaction of one username, or the response does not
    validate, the job ends with that exception and the usernames that follow
    are not fetched. *)
Theorem store_error_aborts_job http_get nm rest clock db data db' e :
  fetch_github_repos http_get nm = Return data ->
  upsert_user_and_repos db nm data (clock 0%nat) = (db', Raise e) ->
  ((e = DBAPIError /\ db' = db) \/ e = ValidationError)
  /\ refresh_loop http_get (nm :: rest) clock db = mkRun db' (Raise e) [] [nm].
Proof.
  intros Hf Hu. pose proof (upsert_raises _ _ _ _ Hu) as He.
  split; auto.
  simpl. unfold refresh_user. rewrite Hf, Hu.
  destruct He as [[-> _] | ->]; reflexivity.
Qed.

(** X6.  The loop fetches the usernames of the snapshot in order, each at
    most once.  It ends normally after the last one; when it ends with an
    exception, the username that raised is the last one fetched, and the
    exception is never an [HTTPException]. *)
Theorem job_follows_snapshot http_get usernames clock db :
  let run := refresh_loop http_get usernames clock db in
  (List.length (printed run) <= List.length (requested run))%nat
  /\ (run_result run = Return tt -> requested run = usernames)
  /\ (forall e, run_result run = Raise e ->
                (forall code detail, e <> HTTPException code detail)
                /\ exists pre nm rest,
                    usernames = pre ++ nm :: rest
                    /\ requested run = pre ++ [nm]).
Proof.
  revert clock db. induction usernames as [|nm rest IH]; intros clock db; simpl.
  - split; [lia|]. split; [auto|]. intros e [=].
  - destruct (refresh_user http_get db nm (clock 0%nat)) as [[db' r] out] eqn:Er.
    destruct (refresh_user_inv _ _ _ _ Er) as [Hnh [Hout _]].
    assert (Hlen : (List.length out <= 1)%nat).
    { destruct Hout as [-> | [c [d [_ [-> _]]]]]; simpl; lia. }
    destruct r as [u|e]; simpl.
    + destruct (IH (fun i => clock (S i)) db') as [Hp [Hr He]].
      split; [rewrite length_app; lia|]. split.
      * intros H. now rewrite Hr.
      * intros e H. destruct (He _ H) as [Hn [pre [nm' [rest' [E1 E2]]]]].
        split; auto. exists (nm :: pre), nm', rest'.
        split; simpl; f_equal; assumption.
    + split; [lia|]. split; [intros [=]|].
      intros e' [= <-]. split.
      * intros c d ->. now elim (Hnh c d).
      * exists [], nm, rest. auto.
Qed.

(** *** The users table *)

(** The [users] table after a call. *)
Lemma upsert_users db nm l now db' r :
  upsert_user_and_repos db nm l now = (db', r) ->
  ((exists user, query_user nm (users db) = Some user) \/ r = Raise DBAPIError ->
   map User_id (users db') = map User_id (users db)
   /\ map username (users db') = map username (users db))
  /\ (query_user nm (users db) = None -> committed r ->
      map User_id (users db') = map User_id (users db) ++ [new_user_id (users db)]
      /\ map username (users db') = map username (users db) ++ [nm]).
Proof.
  intros E. pose proof (upsert_inv _ _ _ _ E) as H.
  destruct H as [[-> ->] | [tx [user [new [rows H]]]]].
  - split; [auto|]. intros _ Hc. now elim Hc.
  - destruct H as [Hu [Husers [_ [_ [_ Hr]]]]].
    pose proof (get_or_create_user_inv _ _ Hu) as [Hname [_ Hnew]].
    rewrite Husers, set_last_synced_at_ids, set_last_synced_at_usernames.
    split.
    + intros [[u Hq] | Hd].
      * destruct new; [destruct Hnew as [Hn _]; congruence|].
        destruct Hnew as [_ ->]. auto.
      * exfalso. rewrite Hd in Hr. symmetry in Hr.
        now apply (read_back_committed db' (User_id user) new).
    + intros Hq _. destruct new; [|destruct Hnew as [Hs _]; congruence].
      destruct Hnew as [_ [-> Hid]]. rewrite !map_app. simpl.
      now rewrite Hid, Hname.
Qed.

(** X7.  A call never removes a user row and never changes a key or a
    username.  It adds no row when the username is known or when the store
    refuses the transaction, and exactly one row, at the end, when the
    username is new and the call commits. *)
Theorem users_only_grow db nm l now db' r :
  upsert_user_and_repos db nm l now = (db', r) ->
  ((exists user, query_user nm (users db) = Some user) \/ r = Raise DBAPIError ->
   map User_id (users db') = map User_id (users db)
   /\ map username (users db') = map username (users db))
  /\ (query_user nm (users db) = None -> committed r ->
      map User_id (users db') = map User_id (users db) ++ [new_user_id (users db)]
      /\ map username (users db') = map username (users db) ++ [nm]).
Proof. exact (@upsert_users db nm l now db' r). Qed.

Lemma query_user_known nm tbl :
  In nm (map username tbl) -> exists user, query_user nm tbl = Some user.
Proof.
  intros H. apply in_map_iff in H. destruct H as [u [Hn Hin]].
  apply (find_exists _ _ u Hin). rewrite Hn. apply String.eqb_refl.
Qed.

Lemma refresh_user_store http_get db nm now db' r out :
  refresh_user http_get db nm now = (db', r, out) ->
  db' = db \/ exists data, db' = fst (upsert_user_and_repos db nm data now).
Proof.
  unfold refresh_user.
  destruct (fetch_github_repos http_get nm) as [data|e].
  - destruct (upsert_user_and_repos db nm data now) as [db1 [resp|e]] eqn:Eu.
    + intros [= <- _ _]. right. exists data. now rewrite Eu.
    + destruct e; intros [= <- _ _]; right; exists data; now rewrite Eu.
  - destruct e; intros [= <- _ _]; now left.
Qed.

Lemma refresh_loop_keeps_users http_get usernames clock db :
  (forall nm, In nm usernames -> In nm (map username (users db))) ->
  map User_id (users (run_db (refresh_loop http_get usernames clock db)))
  = map User_id (users db)
  /\ map username (users (run_db (refresh_loop http_get usernames clock db)))
     = map username (users db).
Proof.
  revert clock db. induction usernames as [|nm rest IH]; intros clock db Hin;
    simpl; auto.
  destruct (refresh_user http_get db nm (clock 0%nat)) as [[db' r] out] eqn:Er.
  assert (Hsame : map User_id (users db') = map User_id (users db)
                  /\ map username (users db') = map username (users db)).
  { destruct (refresh_user_store _ _ _ _ Er) as [-> | [data ->]]; auto.
    destruct (upsert_user_and_repos db nm data (clock 0%nat)) as [db1 r1] eqn:Eu.
    simpl. pose proof Eu as Eu'. apply upsert_users in Eu'.
    destruct Eu' as [Hk _]. apply Hk. left.
    apply query_user_known, Hin. now left. }
  destruct Hsame as [Hi Hn].
  destruct r as [u|e]; simpl; auto.
  destruct (IH (fun i => clock (S i)) db') as [Hi' Hn'].
  - intros nm' H'. rewrite Hn. apply Hin. now right.
  - split; congruence.
Qed.

(** X8.  The refresh job neither adds nor removes a user: after a run,
    however it ended, the keys and the usernames of the [users] table are
    those of the snapshot. *)
Theorem job_keeps_users http_get db clock :
  let run := refresh_all_users http_get db clock in
  map User_id (users (run_db run)) = map User_id (users db)
  /\ map username (users (run_db run)) = map username (users db).
Proof.
  simpl. unfold refresh_all_users. now apply refresh_loop_keeps_users.
Qed.

(** *** The repositories table *)

(** X9.  A call that commits updates in place: the rows it does not delete
    stay where they are with their primary key, owner and external id, and
    the rows it inserts, for the user only and only for external ids the
    user did not hold, come after them. *)
Theorem rows_updated_in_place db nm l now db' r :
  upsert_user_and_repos db nm l now = (db', r) -> committed r ->
  exists user kept rows,
    query_user nm (users db') = Some user
    /\ repositories db' = kept ++ rows
    /\ map row_key kept
       = map row_key (delete_not_in (User_id user) (valid_ids l)
                                    (repositories db))
    /\ Forall (fun row =>
                 user_id row = User_id user
                 /\ In (github_id row) (valid_ids l)
                 /\ query_repository (User_id user) (github_id row)
                                     (repositories db) = None) rows.
Proof.
  intros E Hc. apply upsert_inv in E.
  destruct E as [[_ ->] | [tx [user [new [rows H]]]]]; [now elim Hc|].
  destruct H as [Hu [Husers [_ [Hrepos [Hrows _]]]]].
  apply get_or_create_user_inv in Hu. destruct Hu as [_ [Hq _]].
  pose proof (query_user_set_last_synced_at _ now _ Hq eq_refl) as Hq'.
  rewrite <- Husers in Hq'.
  exists (mkUser (User_id user) nm (Some now)). simpl.
  eexists. exists rows. split; [exact Hq'|]. split; [exact Hrepos|]. split.
  - rewrite map_map. apply map_ext. intros row. apply written_row_key.
  - apply Forall_forall. intros row Hin.
    destruct (@inserted_row _ _ _ _ Hrows row Hin)
      as [repo [Hr [Eg [Eq [Hu' _]]]]].
    repeat split; auto. apply In_valid_ids. eauto.
Qed.



(** *** The foreign key *)

Lemma upsert_fk db nm l now :
  fk_ok db -> fk_ok (fst (upsert_user_and_repos db nm l now)).
Proof.
  intros Hfk.
  destruct (upsert_user_and_repos db nm l now) as [db' r] eqn:E. simpl.
  apply upsert_inv in E.
  destruct E as [[-> _] | [tx [user [new [rows H]]]]]; auto.
  destruct H as [Hu [Husers [_ [Hrepos [Hrows _]]]]].
  apply get_or_create_user_inv in Hu. destruct Hu as [_ [Hq Hnew]].
  assert (Htx : forall k, In k (map User_id (users db)) -> In k (map User_id tx)).
  { intros k Hk. destruct new.
    - destruct Hnew as [_ [-> _]]. rewrite map_app. apply in_or_app. now left.
    - now destruct Hnew as [_ ->]. }
  intros row Hin. rewrite Husers, set_last_synced_at_ids.
  destruct (@committed_row_inv _ _ _ _ _ _ Hrepos _ Hin)
    as [[r0 [H0 [_ ->]]] | Hrow].
  - rewrite written_user_id. apply Htx. now apply Hfk.
  - destruct (@inserted_row _ _ _ _ Hrows row Hrow) as [_ [_ [_ [_ [-> _]]]]].
    unfold query_user in Hq. apply find_some in Hq. destruct Hq as [Hq _].
    now apply in_map.
Qed.

(** X11.  Every store the service can reach satisfies the constraints the
    schema declares: primary keys and usernames are unique, a user has one
    row per external id, and every repository row belongs to a user row. *)
Theorem reachable_constraints db :
  reachable db -> wf_db db /\ fk_ok db.
Proof.
  intros H. split; [now apply reachable_wf|].
  induction H as [|db nm l now _ IH].
  - intros row [].
  - now apply upsert_fk.
Qed.

(** *** When the store refuses, and when it does not *)

Lemma new_objects_app tbl uid l1 l2 :
  new_objects tbl uid (l1 ++ l2)
  = new_objects tbl uid l1 ++ new_objects tbl uid l2.
Proof. unfold new_objects. apply flat_map_app. Qed.

Lemma new_objects_one tbl uid repo g :
  get_id repo = Some g -> query_repository uid g tbl = None ->
  new_objects tbl uid [repo] = [(uid, g, attrs_of repo)].
Proof. intros Eg Eq. unfold new_objects. simpl. now rewrite Eg, Eq. Qed.

(** The user has no row for the id: the SELECT of the loop finds nothing. *)
Lemma not_stored_not_found db nm g tx user new :
  fk_ok db -> ~ In g (stored_ids nm db) ->
  get_or_create_user nm (users db) = Some (tx, user, new) ->
  query_repository (User_id user) g (repositories db) = None.
Proof.
  intros Hfk Hg Hu.
  apply get_or_create_user_inv in Hu. destruct Hu as [_ [_ Hnew]].
  destruct (query_repository (User_id user) g (repositories db)) as [row|] eqn:Eq;
    auto.
  exfalso. apply query_repository_Some in Eq. destruct Eq as [Hin [Hu Hrg]].
  destruct new.
  - destruct Hnew as [_ [_ Hid]].
    apply (new_user_id_fresh (users db)). rewrite <- Hid, <- Hu. now apply Hfk.
  - destruct Hnew as [Hq _]. apply Hg. unfold stored_ids. rewrite Hq.
    apply in_map_iff. exists row. split; auto.
    now apply In_repositories_of.
Qed.

(** X12.  Two records with the same external id, for an id the user holds
    no row for, make the call fail: the session does not flush before its
    queries, both records add an object, and the store refuses the second
    INSERT.  Nothing is written. *)
Theorem duplicate_new_id_refused db nm l now l1 r1 l2 r2 l3 g :
  fk_ok db ->
  l = l1 ++ r1 :: l2 ++ r2 :: l3 ->
  get_id r1 = Some g -> get_id r2 = Some g ->
  ~ In g (stored_ids nm db) ->
  upsert_user_and_repos db nm l now = (db, Raise DBAPIError).
Proof.
  intros Hfk Hl E1 E2 Hg.
  destruct (upsert_user_and_repos db nm l now) as [db' r] eqn:E.
  pose proof (upsert_inv _ _ _ _ E) as H.
  destruct H as [[-> ->] | [tx [user [new [rows H]]]]]; auto.
  exfalso. destruct H as [Hu [_ [Hf _]]].
  pose proof (not_stored_not_found _ _ Hfk Hg Hu) as Eq.
  apply flush_inv in Hf; [|apply upsert_repos_NoDup].
  apply flush_inserts_keys in Hf. destruct Hf as [Hnd _].
  rewrite upsert_repos_pending, Hl in Hnd.
  change (r1 :: l2 ++ r2 :: l3) with ([r1] ++ l2 ++ [r2] ++ l3) in Hnd.
  rewrite !new_objects_app in Hnd.
  rewrite (new_objects_one _ _ _ E1 Eq), (new_objects_one _ _ _ E2 Eq) in Hnd.
  rewrite !map_app in Hnd. simpl in Hnd.
  apply NoDup_remove_2 in Hnd. apply Hnd.
  rewrite !in_app_iff. simpl. auto.
Qed.

Lemma new_objects_keys tbl uid l k :
  In k (map fst (new_objects tbl uid l)) ->
  exists g, k = (uid, g) /\ In g (valid_ids l)
            /\ query_repository uid g tbl = None.
Proof.
  rewrite in_map_iff. intros [o [<- Ho]]. apply new_objects_In in Ho.
  destruct Ho as [repo [g [Hin [Eg [Eq ->]]]]].
  exists g. repeat split; auto. apply In_valid_ids. eauto.
Qed.

Lemma new_objects_NoDup tbl uid l :
  NoDup (valid_ids l) -> NoDup (map fst (new_objects tbl uid l)).
Proof.
  induction l as [|repo l IH]; [constructor|].
  change (repo :: l) with ([repo] ++ l).
  rewrite new_objects_app, map_app.
  unfold valid_ids. rewrite flat_map_app. fold (valid_ids l). simpl.
  rewrite app_nil_r. unfold new_objects at 1. simpl. rewrite app_nil_r.
  destruct (get_id repo) as [g|]; simpl; auto.
  intros Hnd. inversion Hnd as [|? ? Hnin Hnd']; subst.
  destruct (query_repository uid g tbl); simpl; auto.
  constructor; auto.
  intros Hin. apply new_objects_keys in Hin.
  destruct Hin as [g' [[= <-] [Hg _]]]. contradiction.
Qed.

Lemma storable_insertable uid g repo :
  storable repo -> get_id repo = Some g ->
  insertable (uid, g, attrs_of repo) = true.
Proof.
  unfold storable, insertable. intros H Eg. rewrite Eg in H.
  destruct H as [n [h [En [Eh [Hi [Hn [Hh [Hd Hl]]]]]]]]. simpl.
  now rewrite En, Eh, Hi, Hn, Hh, Hd, Hl.
Qed.

Lemma storable_can_update pk repo g loaded tbl :
  storable repo -> get_id repo = Some g ->
  find (fun r => Repository_id r =? pk) tbl = Some loaded ->
  can_update pk (attrs_of repo) tbl = true.
Proof.
  unfold storable, can_update, update_repository. intros H Eg ->.
  rewrite Eg in H.
  destruct H as [n [h [En [Eh [_ [Hn [Hh [Hd Hl]]]]]]]]. simpl.
  rewrite En, Eh. unfold sent_ok. rewrite Hn, Hh, Hd, Hl.
  now rewrite !orb_true_r.
Qed.

(** X13.  Well-formed input commits: when the username is known or accepted
    by the backend, the external ids of the records are pairwise distinct,
    and every record with an id has a [name] and an [html_url] and, in each
    of the five columns the call writes ([github_id], [name], [html_url],
    [description], [language]), a value the backend accepts, the store
    refuses nothing. *)
Theorem storable_records_commit db nm l now :
  (query_user nm (users db) = None -> varchar_ok 39 nm = true) ->
  Forall storable l -> NoDup (valid_ids l) ->
  committed (snd (upsert_user_and_repos db nm l now)).
Proof.
  intros Hnm Hst Hnd.
  assert (Hu : exists tx user new,
             get_or_create_user nm (users db) = Some (tx, user, new)).
  { unfold get_or_create_user.
    destruct (query_user nm (users db)); [eauto|].
    rewrite Hnm by auto. eauto. }
  destruct Hu as [tx [user [new Hu]]].
  set (uid := User_id user). set (tbl := repositories db).
  set (D := delete_not_in uid (valid_ids l) tbl).
  destruct (flush_updates_accepted (identity_map (upsert_repos tbl uid l)) D
              (upsert_repos_NoDup tbl uid l)) as [t1 E1].
  { intros pk a Hin.
    pose proof (in_im_get _ _ _ (upsert_repos_NoDup tbl uid l) Hin) as Hget.
    unfold upsert_repos in Hget. rewrite upsert_loop_identity in Hget.
    destruct (find_last (loads tbl uid pk) l) as [repo|] eqn:Efl;
      [|discriminate].
    injection Hget as <-.
    unfold find_last in Efl. apply find_some in Efl.
    destruct Efl as [Hrepo Hloads]. apply in_rev in Hrepo.
    apply loads_row in Hloads. destruct Hloads as [g [row [Eg [Eq Epk]]]].
    apply query_repository_Some in Eq. destruct Eq as [Hrow [Hru Hrg]].
    assert (HD : In row D).
    { apply delete_not_in_In. split; auto. intros _.
      apply In_valid_ids. exists repo. split; auto. congruence. }
    destruct (find_exists (fun r => Repository_id r =? pk) D row HD)
      as [loaded Hl].
    { rewrite Epk. apply Z.eqb_refl. }
    apply (@storable_can_update pk repo g loaded D); auto.
    rewrite Forall_forall in Hst. now apply Hst. }
  pose proof E1 as E1'.
  apply flush_updates_written in E1'; [|apply upsert_repos_NoDup].
  destruct (flush_inserts_accepted (new_objects tbl uid l) t1) as [t2 E2].
  - now apply new_objects_NoDup.
  - intros k Hk. apply new_objects_keys in Hk.
    destruct Hk as [g [-> [_ Eq]]].
    rewrite E1', map_written_owner. intros Hin.
    apply in_map_iff in Hin. destruct Hin as [row [Ho Hrow]].
    apply delete_not_in_In in Hrow. destruct Hrow as [Hrow _].
    unfold owner_and_id in Ho. injection Ho as Hu' Hg'.
    now apply (@query_repository_None _ _ _ Eq row Hrow Hu').
  - intros o Ho. apply new_objects_In in Ho.
    destruct Ho as [repo [g [Hin [Eg [_ ->]]]]].
    apply storable_insertable; auto.
    rewrite Forall_forall in Hst. now apply Hst.
  - assert (Hf : flush (upsert_repos tbl uid l) D = Some t2).
    { unfold flush. now rewrite E1, upsert_repos_pending. }
    rewrite (@upsert_commits db nm l now _ _ _ _ Hu Hf). simpl.
    apply read_back_committed.
Qed.

(** *** The response and the endpoint *)

Lemma Forall2_In_right {A B} (R : A -> B -> Prop) l l' y :
  Forall2 R l l' -> In y l' -> exists x, In x l /\ R x y.
Proof.
  induction 1 as [|x0 y0 l l' Hy _ IH]; intros Hin; [destruct Hin|].
  destruct Hin as [<- | Hin].
  - exists x0. split; auto. now left.
  - destruct (IH Hin) as [x [Hx Hr]]. exists x. split; auto. now right.
Qed.

Lemma nodup_length (l : list Z) :
  (List.length (nodup Z.eq_dec l) <= List.length l)%nat.
Proof.
  induction l as [|x l IH]; simpl; auto.
  destruct (in_dec Z.eq_dec x l); simpl; lia.
Qed.

Lemma valid_ids_length l : (List.length (valid_ids l) <= List.length l)%nat.
Proof.
  induction l as [|repo l IH]; simpl; auto.
  rewrite length_app. fold (valid_ids l).
  destruct (get_id repo); simpl; lia.
Qed.

Lemma find_user_by_id tbl u :
  NoDup (map User_id tbl) -> In u tbl ->
  find (fun x => User_id x =? User_id u) tbl = Some u.
Proof.
  induction tbl as [|x tbl IH]; simpl; intros Hnd Hin; [destruct Hin|].
  inversion Hnd as [|? ? Hnin Hnd']; subst.
  destruct Hin as [-> | Hin].
  - now rewrite Z.eqb_refl.
  - destruct (User_id x =? User_id u) eqn:E; auto.
    apply Z.eqb_eq in E. elim Hnin. rewrite E. now apply in_map.
Qed.

(** A response against the input of its call. *)
Lemma response_inv db nm l now db' resp :
  wf_db db ->
  upsert_user_and_repos db nm l now = (db', Return resp) ->
  resp_username resp = nm
  /\ List.length (resp_repositories resp)
     = List.length (nodup Z.eq_dec (valid_ids l))
  /\ forall rb, In rb (resp_repositories resp) ->
                exists g repo,
                  last_with_id g l = Some repo
                  /\ get_name repo = Some (rb_name rb)
                  /\ get_description repo = rb_description rb
                  /\ get_language repo = rb_language rb.
Proof.
  intros Hwf E.
  pose proof (upsert_wf nm l now Hwf) as Hwf'. rewrite E in Hwf'.
  simpl in Hwf'. destruct Hwf' as [Hu' [_ [_ Hown']]].
  destruct Hwf as [_ [_ [Hpk Hown]]].
  pose proof (upsert_inv _ _ _ _ E) as H.
  destruct H as [[_ [=]] | [tx [user [new [rows H]]]]].
  destruct H as [Hu [Husers [Hf [Hrepos [Hrows Hr]]]]].
  apply get_or_create_user_inv in Hu. destruct Hu as [_ [Hq _]].
  pose proof (query_user_set_last_synced_at _ now _ Hq eq_refl) as Hq'.
  rewrite <- Husers in Hq'.
  assert (Hin' : In (mkUser (User_id user) nm (Some now)) (users db')).
  { unfold query_user in Hq'. now apply find_some in Hq'. }
  symmetry in Hr. apply read_back_inv in Hr.
  destruct Hr as [u [rs [Hfind [Ht ->]]]]. simpl.
  apply traverse_Forall2 in Ht.
  split; [|split].
  - pose proof (find_user_by_id _ _ Hu' Hin') as Hfind'. simpl in Hfind'.
    rewrite Hfind' in Hfind. now injection Hfind as <-.
  - rewrite <- (Forall2_length Ht).
    rewrite (Permutation_length (order_by_name_perm _ _)).
    rewrite <- (length_map github_id).
    apply Permutation_length, NoDup_Permutation.
    + now apply NoDup_github_id_of_user.
    + apply NoDup_nodup.
    + intros g. rewrite nodup_In, in_map_iff. split.
      * intros [row [<- Hrow]]. apply In_repositories_of in Hrow.
        destruct Hrow as [Hrow Hru].
        eapply committed_rows_subset; eauto.
      * intros Hg.
        destruct (@committed_rows_cover _ _ _ _ _ _ Hrepos Hrows g Hg)
          as [row [Hrow [Hru Hrg]]].
        exists row. split; auto. now apply In_repositories_of.
  - intros rb Hrb.
    pose proof Ht as Ht'. eapply Forall2_In_right in Ht'; [|exact Hrb].
    destruct Ht' as [row [Hrow Hfrom]].
    apply (Permutation_in _ (order_by_name_perm _ _)) in Hrow.
    apply In_repositories_of in Hrow. destruct Hrow as [Hrow Hru].
    destruct (@stored_is_last _ _ _ _ row Hpk Hown Hf Hrow Hru)
      as [repo [Hlast Ha]].
    exists (github_id row), repo. split; auto.
    unfold from_orm in Hfrom.
    destruct (validate_http_url (html_url row)); [|discriminate].
    injection Hfrom as <-. simpl.
    unfold stored_attrs, attrs_of in Ha. repeat split; congruence.
Qed.

Lemma Forall2_with_In {A B} (R : A -> B -> Prop) l l' :
  Forall2 R l l' -> Forall2 (fun x y => In x l /\ R x y) l l'.
Proof.
  induction 1 as [|x y l l' Hxy _ IH]; constructor.
  - split; auto. now left.
  - eapply Forall2_impl; [|exact IH].
    intros a b [Ha Hab]. split; auto. now right.
Qed.

Lemma Forall2_map_left {A B C} (f : A -> C) (R : C -> B -> Prop) l l' :
  Forall2 (fun x y => R (f x) y) l l' -> Forall2 R (map f l) l'.
Proof. induction 1; simpl; constructor; auto. Qed.

(** X14.  A response names the username it was asked for, and its entries
    stand, one for one and in the order of the response, for the distinct
    external ids of the input: the entry of an id shows the [name], the
    validated [html_url], the [description] and the [language] of the last
    record of the input that carries this id. *)
Theorem response_matches_input db nm l now db' resp :
  wf_db db ->
  upsert_user_and_repos db nm l now = (db', Return resp) ->
  resp_username resp = nm
  /\ exists ids,
      Permutation ids (nodup Z.eq_dec (valid_ids l))
      /\ Forall2 (fun g rb =>
                    exists repo h,
                      last_with_id g l = Some repo
                      /\ get_name repo = Some (rb_name rb)
                      /\ get_html_url repo = Some h
                      /\ validate_http_url h = Some (rb_html_url rb)
                      /\ get_description repo = rb_description rb
                      /\ get_language repo = rb_language rb)
                 ids (resp_repositories resp).
Proof.
  intros Hwf E.
  pose proof (upsert_wf nm l now Hwf) as Hwf'. rewrite E in Hwf'.
  simpl in Hwf'. destruct Hwf' as [Hu' [_ [_ Hown']]].
  destruct Hwf as [_ [_ [Hpk Hown]]].
  pose proof (upsert_inv _ _ _ _ E) as H.
  destruct H as [[_ [=]] | [tx [user [new [rows H]]]]].
  destruct H as [Hu [Husers [Hf [Hrepos [Hrows Hr]]]]].
  apply get_or_create_user_inv in Hu. destruct Hu as [_ [Hq _]].
  pose proof (query_user_set_last_synced_at _ now _ Hq eq_refl) as Hq'.
  rewrite <- Husers in Hq'.
  assert (Hin' : In (mkUser (User_id user) nm (Some now)) (users db')).
  { unfold query_user in Hq'. now apply find_some in Hq'. }
  symmetry in Hr. apply read_back_inv in Hr.
  destruct Hr as [u [rs [Hfind [Ht ->]]]]. simpl.
  apply traverse_Forall2 in Ht.
  split.
  { pose proof (find_user_by_id _ _ Hu' Hin') as Hfind'. simpl in Hfind'.
    rewrite Hfind' in Hfind. now injection Hfind as <-. }
  set (mine := repositories_of (User_id user) (repositories db')) in *.
  exists (map github_id (order_by_name collation_le mine)). split.
  - rewrite (Permutation_map github_id (order_by_name_perm collation_le mine)).
    apply NoDup_Permutation.
    + now apply NoDup_github_id_of_user.
    + apply NoDup_nodup.
    + intros g. rewrite nodup_In, in_map_iff. split.
      * intros [row [<- Hrow]]. apply In_repositories_of in Hrow.
        destruct Hrow as [Hrow Hru].
        eapply committed_rows_subset; eauto.
      * intros Hg.
        destruct (@committed_rows_cover _ _ _ _ _ _ Hrepos Hrows g Hg)
          as [row [Hrow [Hru Hrg]]].
        exists row. split; auto. now apply In_repositories_of.
  - apply Forall2_map_left. apply Forall2_with_In in Ht.
    eapply Forall2_impl; [|exact Ht].
    intros row rb [Hrow Hfrom].
    apply (Permutation_in _ (order_by_name_perm _ _)) in Hrow.
    apply In_repositories_of in Hrow. destruct Hrow as [Hrow Hru].
    destruct (@stored_is_last _ _ _ _ row Hpk Hown Hf Hrow Hru)
      as [repo [Hlast Ha]].
    exists repo, (html_url row). split; auto.
    unfold from_orm in Hfrom.
    destruct (validate_http_url (html_url row)) as [url|] eqn:Ev;
      [|discriminate].
    injection Hfrom as <-. simpl.
    unfold stored_attrs, attrs_of in Ha. repeat split; congruence.
Qed.

(** X15.  The endpoint.  When the fetch raises, the exception leaves the
    endpoint and the store is untouched: no user row is created for a
    username the upstream does not know.  When the endpoint returns, the
    response has at most five repositories, and the user has at most five
    rows. *)
Theorem sync_keeps_at_most_five http_get db nm now db' r :
  wf_db db ->
  sync_github_user http_get db nm now = (db', r) ->
  (forall e, fetch_github_repos http_get nm = Raise e ->
             db' = db /\ r = Raise e)
  /\ (forall resp,
         r = Return resp ->
         (List.length (resp_repositories resp) <= 5)%nat
         /\ exists user,
             query_user nm (users db') = Some user
             /\ (List.length (repositories_of (User_id user) (repositories db'))
                 <= 5)%nat).
Proof.
  intros Hwf. unfold sync_github_user.
  destruct (fetch_github_repos http_get nm) as [data|e] eqn:Ef.
  - intros E. split; [intros e [=]|]. intros resp ->.
    assert (Hfive : (List.length (nodup Z.eq_dec (valid_ids data)) <= 5)%nat).
    { pose proof (fetch_at_most_five http_get nm Ef).
      pose proof (nodup_length (valid_ids data)).
      pose proof (valid_ids_length data). lia. }
    pose proof E as E'. apply response_inv in E'; auto.
    destruct E' as [_ [Hlen _]].
    split; [lia|].
    pose proof (upsert_wf nm data now Hwf) as Hwf'. rewrite E in Hwf'.
    simpl in Hwf'. destruct Hwf' as [_ [_ [_ Hown']]].
    apply upsert_committed in E; [|discriminate].
    destruct E as [uid [new [Hq [_ [_ [Hsub [Hcov _]]]]]]].
    exists (mkUser uid nm (Some now)). split; auto. simpl.
    rewrite <- (length_map github_id).
    rewrite (Permutation_length
               (l' := nodup Z.eq_dec (valid_ids data))); auto.
    apply NoDup_Permutation.
    + now apply NoDup_github_id_of_user.
    + apply NoDup_nodup.
    + intros g. rewrite nodup_In, in_map_iff. split.
      * intros [row [<- Hrow]]. apply In_repositories_of in Hrow.
        destruct Hrow. now apply Hsub.
      * intros Hg. destruct (Hcov g Hg) as [row [Hrow [Hru Hrg]]].
        exists row. split; auto. now apply In_repositories_of.
  - intros [= <- <-]. split; [|discriminate].
    intros e' [= <-]. auto.
Qed.

End Backend.

(** ** The concrete backend *)

Lemma serial_above keys k : In k keys -> k < serial keys.
Proof.
  unfold serial. induction keys as [|x keys IH]; cbn [fold_right In];
    [intros []|].
  intros [-> | Hin]; [lia|]. apply IH in Hin. lia.
Qed.

Lemma serial_fresh keys : ~ In (serial keys) keys.
Proof. intros H. apply serial_above in H. lia. Qed.

Lemma pg_new_user_id_fresh tbl : ~ In (pg_new_user_id tbl) (map User_id tbl).
Proof. apply serial_fresh. Qed.

Lemma pg_new_repository_id_fresh tbl :
  ~ In (pg_new_repository_id tbl) (map Repository_id tbl).
Proof. apply serial_fresh. Qed.

Abbreviation pg_upsert :=
  (upsert_user_and_repos pg_new_user_id pg_new_repository_id
                         pg_varchar_ok pg_integer_ok pg_text_ok scheme_http_url binary_le).

Lemma sample_db_wf : wf_db sample_db.
Proof.
  unfold wf_db, sample_db. simpl.
  repeat split; repeat constructor; simpl;
    intuition (try discriminate; try lia).
Qed.

Lemma empty_db_wf : wf_db empty_db.
Proof. repeat split; constructor. Qed.

(** ** The statements at work on the sample data *)

(** Pruning: octocat holds 11, 12 and 13 and is reconciled with 11 and 12. *)
Lemma reconcile_ids_exact_witness :
  let run := pg_upsert sample_db "octocat" [record 11 "a"; record 12 "b"] 100 in
  committed (snd run)
  /\ exists user,
      query_user "octocat" (users (fst run)) = Some user
      /\ (forall g, In g (map github_id
                              (repositories_of (User_id user)
                                               (repositories (fst run))))
                    <-> In g [11; 12])
      /\ (forall row, In row (repositories sample_db) ->
                      user_id row = User_id user ->
                      ~ In (github_id row) [11; 12] ->
                      ~ In row (repositories (fst run)))
      /\ ([11; 12] = [] ->
          repositories_of (User_id user) (repositories (fst run)) = []).
Proof.
  intros run.
  assert (Hc : committed (snd run)) by (vm_compute; discriminate).
  split; [exact Hc|].
  exact (reconcile_ids_exact pg_new_user_id pg_new_repository_id
           pg_varchar_ok pg_integer_ok pg_text_ok scheme_http_url binary_le
           sample_db "octocat" [record 11 "a"; record 12 "b"] 100
           (surjective_pairing run) Hc).
Defined.


(** Ordering: "zeta", "alpha", "mid" come back as "alpha", "mid", "zeta". *)
Lemma response_sorted_by_name_witness :
  exists db' resp,
    pg_upsert empty_db "octocat"
              [record 1 "zeta"; record 2 "alpha"; record 3 "mid"] 100
    = (db', Return resp)
    /\ map (@rb_name string) (resp_repositories resp) = ["alpha"; "mid"; "zeta"]
    /\ exists user rows,
        query_user "octocat" (users db') = Some user
        /\ Permutation rows (repositories_of (User_id user) (repositories db'))
        /\ StronglySorted (name_le binary_le) rows
        /\ Forall2 (fun row rb => from_orm scheme_http_url row = Some rb)
                   rows (resp_repositories resp)
        /\ map (@rb_name string) (resp_repositories resp) = map name rows.
Proof.
  eexists. eexists.
  assert (E : pg_upsert empty_db "octocat"
                        [record 1 "zeta"; record 2 "alpha"; record 3 "mid"] 100
              = (fst (pg_upsert empty_db "octocat"
                        [record 1 "zeta"; record 2 "alpha"; record 3 "mid"] 100),
                 Return (mkUserSyncResponse "octocat" "new" true
                           [mkRepositoryBase "alpha"
                              "https://github.com/octocat/alpha"
                              None (Some "Python");
                            mkRepositoryBase "mid"
                              "https://github.com/octocat/mid"
                              None (Some "Python");
                            mkRepositoryBase "zeta"
                              "https://github.com/octocat/zeta"
                              None (Some "Python")])))
    by (vm_compute; reflexivity).
  split; [exact E|]. split; [reflexivity|].
  exact (response_sorted_by_name pg_new_user_id pg_new_repository_id
           pg_varchar_ok pg_integer_ok pg_text_ok scheme_http_url binary_le
           String.leb_total string_leb_trans
           empty_db "octocat"
           [record 1 "zeta"; record 2 "alpha"; record 3 "mid"] 100 E).
Defined.

(** Under a collation that ignores case, "Beta" and "alpha" come back as
    "alpha", "Beta": not ascending in the case-sensitive order, which puts
    "Beta" first. *)
Lemma response_order_follows_collation :
  (forall a b, nocase_le a b = true \/ nocase_le b a = true)
  /\ (forall a b c, nocase_le a b = true -> nocase_le b c = true ->
                    nocase_le a c = true)
  /\ exists db' resp,
      upsert_user_and_repos pg_new_user_id pg_new_repository_id
        pg_varchar_ok pg_integer_ok pg_text_ok scheme_http_url nocase_le
        empty_db "octocat" [record 1 "Beta"; record 2 "alpha"] 100
      = (db', Return resp)
      /\ map (@rb_name string) (resp_repositories resp) = ["alpha"; "Beta"]
      /\ ~ StronglySorted (fun a b => String.leb a b = true)
                          (map (@rb_name string) (resp_repositories resp)).
Proof.
  split; [|split].
  - intros a b. apply String.leb_total.
  - intros a b c. apply string_leb_trans.
  - eexists. eexists. split; [vm_compute; reflexivity|].
    split; [reflexivity|]. simpl. intros Hs.
    inversion Hs as [|? ? _ Hall]; subst.
    inversion Hall as [|? ? Hle _]; subst.
    vm_compute in Hle. discriminate.
Qed.

(** Uniqueness: octocat is reconciled twice with the external id 1, under
    the name "old-name" and then "new-name". *)
Lemma one_row_per_external_id_witness :
  let db1 := fst (pg_upsert empty_db "octocat" [record 1 "old-name"] 100) in
  let run := pg_upsert db1 "octocat" [record 1 "new-name"] 200 in
  NoDup (map owner_and_id (repositories (fst run)))
  /\ List.length (repositories (fst run)) = 1%nat
  /\ exists user row,
      query_user "octocat" (users (fst run)) = Some user
      /\ rows_for (User_id user) 1 (repositories (fst run)) = [row]
      /\ name row = "new-name".
Proof.
  intros db1 run.
  pose proof (one_row_per_external_id pg_new_user_id pg_new_repository_id
                pg_varchar_ok pg_integer_ok pg_text_ok scheme_http_url binary_le
                pg_new_user_id_fresh pg_new_repository_id_fresh) as [Huniq Htwice].
  split; [|split].
  - apply (Huniq db1 "octocat" [record 1 "new-name"] 200).
    apply reachable_upsert, reachable_empty.
  - reflexivity.
  - apply (Htwice empty_db "octocat" [record 1 "old-name"] 100
                  [record 1 "new-name"] 200 (fst run) (snd run)
                  [] (record 1 "new-name") [] 1 "new-name").
    + apply reachable_empty.
    + apply surjective_pairing.
    + vm_compute. discriminate.
    + reflexivity.
    + reflexivity.
    + reflexivity.
    + intros [].
Defined.

(** Idempotence: two calls in a row with the same list, one record of which
    has no id. *)
Lemma reconcile_twice_witness :
  let l := [record 1 "alpha"; record_without_id; record 2 "beta"] in
  let run1 := pg_upsert empty_db "octocat" l 100 in
  let run2 := pg_upsert (fst run1) "octocat" l 200 in
  wf_db empty_db
  /\ repositories (fst run2) = repositories (fst run1)
  /\ (forall resp1,
         snd run1 = Return resp1 ->
         (query_user "octocat" (users empty_db) = None -> status resp1 = "new")
         /\ exists resp2,
             snd run2 = Return resp2 /\ status resp2 = "updated"
             /\ resp_repositories resp2 = resp_repositories resp1)
  /\ (committed (snd run1) ->
      forall dbk l' t' db' resp',
        later pg_new_user_id pg_new_repository_id pg_varchar_ok pg_integer_ok pg_text_ok
              scheme_http_url binary_le (fst run1) dbk ->
        pg_upsert dbk "octocat" l' t' = (db', Return resp') ->
        status resp' = "updated").
Proof.
  intros l run1 run2. split; [exact empty_db_wf|].
  exact (@reconcile_twice pg_new_user_id pg_new_repository_id
           pg_varchar_ok pg_integer_ok pg_text_ok string scheme_http_url binary_le
           pg_new_user_id_fresh pg_new_repository_id_fresh
           empty_db "octocat" l 100 200 (fst run1) (snd run1)
           (fst run2) (snd run2)
           empty_db_wf (surjective_pairing run1) (surjective_pairing run2)).
Defined.

(** The first call for a username never seen may raise: a record with an id
    and no name is refused by the store, no status is returned and the
    username is still unknown afterwards. *)
Lemma first_call_can_raise :
  query_user "octocat" (users empty_db) = None
  /\ pg_upsert empty_db "octocat" [record_without_name] 100
     = (empty_db, Raise DBAPIError)
  /\ ~ (exists resp,
           snd (pg_upsert empty_db "octocat" [record_without_name] 100)
           = Return resp /\ status resp = "new").
Proof.
  split; [reflexivity|]. split; [reflexivity|].
  intros [resp [H _]]. vm_compute in H. discriminate.
Qed.

(** Last write wins: octocat's row for 11 takes the fields of the record, a
    missing description is stored as NULL. *)
Lemma record_overwrites_row_witness :
  let repo := mkRepoDict (Some 11) (Some "renamed")
                         (Some "https://github.com/octocat/renamed")
                         None (Some "Rust") in
  let l := [repo; record 12 "b"] in
  let run := pg_upsert sample_db "octocat" l 100 in
  wf_db sample_db
  /\ committed (snd run)
  /\ (committed (snd run) ->
      exists user row,
        query_user "octocat" (users (fst run)) = Some user
        /\ rows_for (User_id user) 11 (repositories (fst run)) = [row]
        /\ get_name repo = Some (name row)
        /\ get_html_url repo = Some (html_url row)
        /\ description row = get_description repo
        /\ language row = get_language repo)
  /\ (get_name repo = None \/ get_html_url repo = None ->
      snd run = Raise DBAPIError /\ fst run = sample_db)
  /\ (committed (snd run) ->
      forall l', Forall2 drops_optional l' l ->
                 committed (snd (pg_upsert sample_db "octocat" l' 100))).
Proof.
  intros repo l run. split; [exact sample_db_wf|].
  split; [vm_compute; discriminate|].
  apply (@record_overwrites_row pg_new_user_id pg_new_repository_id
           pg_varchar_ok pg_integer_ok pg_text_ok string scheme_http_url binary_le
           pg_new_user_id_fresh pg_new_repository_id_fresh
           sample_db "octocat" l 100 (fst run) (snd run)
           [] repo [record 12 "b"] 11).
  - exact sample_db_wf.
  - apply surjective_pairing.
  - reflexivity.
  - reflexivity.
  - simpl. intros [H | []]. discriminate.
Defined.

(** A record that has an id and no [name], or no [html_url], is not stored
    with a NULL: the store refuses the transaction and the call raises. *)
Lemma missing_name_or_url_is_refused :
  pg_upsert empty_db "octocat" [record_without_name] 100
  = (empty_db, Raise DBAPIError)
  /\ pg_upsert empty_db "octocat" [record_without_html_url] 100
     = (empty_db, Raise DBAPIError)
  /\ pg_upsert sample_db "octocat"
               [mkRepoDict (Some 11) None (Some "https://github.com/octocat/a")
                           None None] 100
     = (sample_db, Raise DBAPIError).
Proof. repeat split; reflexivity. Qed.

(** Malformed record skip: one record without id and two records with the
    ids 1 and 2, for a new user: the call returns and two rows are stored. *)
Lemma records_without_id_skipped_witness :
  let l := [record_without_id; record 1 "alpha"; record 2 "beta"] in
  let run := pg_upsert empty_db "octocat" l 100 in
  wf_db empty_db
  /\ committed (snd run)
  /\ (exists resp, snd run = Return resp)
  /\ List.length (repositories (fst run)) = 2%nat
  /\ run = pg_upsert empty_db "octocat" (filter has_id l) 100
  /\ exists user,
      query_user "octocat" (users (fst run)) = Some user
      /\ List.length (repositories_of (User_id user) (repositories (fst run)))
         = 2%nat.
Proof.
  intros l run.
  assert (Hc : committed (snd run)) by (vm_compute; discriminate).
  destruct (@records_without_id_skipped pg_new_user_id pg_new_repository_id
              pg_varchar_ok pg_integer_ok pg_text_ok string scheme_http_url binary_le
              pg_new_user_id_fresh pg_new_repository_id_fresh
              empty_db "octocat" l 100) as [Hskip Hcount].
  split; [exact empty_db_wf|]. split; [exact Hc|].
  split; [eexists; vm_compute; reflexivity|].
  split; [reflexivity|]. split; [exact Hskip|].
  apply (Hcount (fst run) (snd run) 1 2 empty_db_wf
                (surjective_pairing run) Hc eq_refl).
  discriminate.
Defined.

(** Isolation: reconciling octocat leaves hubot's rows alone, also the row
    hubot has for the external id that octocat's record carries. *)
Lemma other_user_untouched_witness :
  let run := pg_upsert sample_db "octocat" [record 11 "a2"] 100 in
  wf_db sample_db
  /\ "hubot" <> "octocat"
  /\ filter (fun u => String.eqb (username u) "hubot") (users (fst run))
     = filter (fun u => String.eqb (username u) "hubot") (users sample_db)
  /\ forall v, In v (users sample_db) -> username v = "hubot" ->
               repositories_of (User_id v) (repositories (fst run))
               = repositories_of (User_id v) (repositories sample_db).
Proof.
  intros run.
  assert (Hne : "hubot" <> "octocat") by discriminate.
  split; [exact sample_db_wf|]. split; [exact Hne|].
  exact (@other_user_untouched pg_new_user_id pg_new_repository_id
           pg_varchar_ok pg_integer_ok pg_text_ok string scheme_http_url binary_le
           pg_new_user_id_fresh
           sample_db "octocat" [record 11 "a2"] 100 (fst run) (snd run)
           "hubot" sample_db_wf Hne (surjective_pairing run)).
Defined.



(** A call that is applied whole: octocat is reconciled with a record that
    renames the repository 11 and a record for the new id 14.  The row for
    11 is updated in place, the rows for 12 and 13 are deleted, a row for
    14 is inserted, the row of hubot stays and octocat carries the time of
    the call. *)
Lemma upsert_all_or_nothing_witness :
  let l := [record 11 "renamed"; record 14 "d"] in
  let run := pg_upsert sample_db "octocat" l 100 in
  wf_db sample_db
  /\ users (fst run) = [mkUser 1 "octocat" (Some 100); mkUser 2 "hubot" (Some 60)]
  /\ repositories (fst run)
     = [mkRepository 1 11 "renamed" "https://github.com/octocat/renamed"
                     None (Some "Python") 1;
        mkRepository 4 11 "h" "https://github.com/hubot/h" None (Some "Go") 2;
        mkRepository 5 14 "d" "https://github.com/octocat/d"
                     None (Some "Python") 1]
  /\ ((snd run = Raise DBAPIError /\ fst run = sample_db)
      \/ (((exists resp, snd run = Return resp)
           \/ snd run = Raise ValidationError)
          /\ exists user,
              query_user "octocat" (users (fst run)) = Some user
              /\ last_synced_at user = Some 100
              /\ (forall g, In g (valid_ids l) ->
                            exists row, In row (repositories (fst run))
                                        /\ user_id row = User_id user
                                        /\ github_id row = g)
              /\ (forall row, In row (repositories (fst run)) ->
                              user_id row = User_id user ->
                              In (github_id row) (valid_ids l))
              /\ (wf_db sample_db ->
                  forall row, In row (repositories (fst run)) ->
                              user_id row = User_id user ->
                              exists repo,
                                last_with_id (github_id row) l = Some repo
                                /\ stored_attrs row = attrs_of repo))).
Proof.
  intros l run. split; [exact sample_db_wf|].
  split; [reflexivity|]. split; [reflexivity|].
  exact (@upsert_all_or_nothing pg_new_user_id pg_new_repository_id
           pg_varchar_ok pg_integer_ok pg_text_ok string scheme_http_url
           binary_le sample_db "octocat" l 100 (fst run) (snd run)
           (surjective_pairing run)).
Defined.

(** Atomicity at work: octocat is reconciled with a record for 11 and a new
    record without a name.  The DELETE of the rows for 12 and 13 and the
    UPDATE of the row for 11 are rolled back with the refused INSERT. *)
Example refused_call_changes_nothing :
  pg_upsert sample_db "octocat" [record 11 "a2"; record_without_name] 100
  = (sample_db, Raise DBAPIError)
  /\ pg_upsert sample_db "newcomer" [record 5 "x"; record 5 "y"] 100
     = (sample_db, Raise DBAPIError).
Proof. split; reflexivity. Qed.


(** ** The further properties on the sample data *)

Lemma sample_db_fk :
  fk_ok sample_db.
Proof.
  intros row Hin. simpl in Hin.
  repeat (destruct Hin as [<- | Hin]; [simpl; auto|]). destruct Hin.
Qed.

(** busy answers 503: the fetch raises a 502 that names the status. *)
Lemma fetch_http_exception_status_witness :
  fetch_github_repos sample_http_get "busy"
  = Raise (HTTPException 502 "Error querying GitHub: 503")
  /\ exists status body,
      sample_http_get (repos_url "busy") = Reply status body
      /\ ((status = 404 /\ 502 = 404
           /\ "Error querying GitHub: 503" = "GitHub user not found.")
          \/ (status <> 404 /\ status <> 200 /\ 502 = 502
              /\ "Error querying GitHub: 503"
                 = ("Error querying GitHub: " ++ string_of_Z status)%string)
          \/ (status = 200 /\ body = JsonOther /\ 502 = 502
              /\ "Error querying GitHub: 503"
                 = "Unexpected response from GitHub API.")).
Proof.
  assert (H : fetch_github_repos sample_http_get "busy"
              = Raise (HTTPException 502 "Error querying GitHub: 503"))
    by reflexivity.
  split; [exact H|].
  exact (@fetch_http_exception_status sample_http_get "busy" 502
           "Error querying GitHub: 503" H).
Defined.

(** ghost is gone upstream: one line, the store as it was, no exception. *)
Lemma refresh_user_outcome_witness :
  let run := refresh_user pg_new_user_id pg_new_repository_id pg_varchar_ok
                          pg_integer_ok pg_text_ok scheme_http_url binary_le sample_http_get
                          sample_job_db "ghost" 100 in
  run = (sample_job_db, Return tt,
         ["Error updating user ghost: GitHub user not found."])
  /\ (forall code detail, snd (fst run) <> Raise (HTTPException code detail)).
Proof.
  intros run. split; [reflexivity|].
  apply (@refresh_user_outcome pg_new_user_id pg_new_repository_id
           pg_varchar_ok pg_integer_ok pg_text_ok string scheme_http_url binary_le sample_http_get
           sample_job_db "ghost" 100 (fst (fst run)) (snd (fst run)) (snd run)).
  reflexivity.
Defined.

(** The upstream does not answer for nobody: the job stops there. *)
Lemma fetch_crash_aborts_job_witness :
  fetch_github_repos sample_http_get "nobody" = Raise RequestError
  /\ refresh_loop pg_new_user_id pg_new_repository_id pg_varchar_ok
                  pg_integer_ok pg_text_ok scheme_http_url binary_le sample_http_get
                  ["nobody"; "octocat"] (fun i => 100 + Z.of_nat i) sample_db
     = mkRun sample_db (Raise RequestError) [] ["nobody"].
Proof.
  assert (H : fetch_github_repos sample_http_get "nobody" = Raise RequestError)
    by reflexivity.
  split; [exact H|].
  apply (@fetch_crash_aborts_job pg_new_user_id pg_new_repository_id
           pg_varchar_ok pg_integer_ok pg_text_ok string scheme_http_url binary_le sample_http_get
           "nobody" ["octocat"] (fun i => 100 + Z.of_nat i) sample_db
           RequestError H).
  discriminate.
Defined.

(** hubot's list holds a record without name: the store refuses it and
    octocat, next in the snapshot, is not fetched. *)
Lemma store_error_aborts_job_witness :
  let clock := fun i => 100 + Z.of_nat i in
  fetch_github_repos crowded_http_get "hubot" = Return [record_without_name]
  /\ pg_upsert sample_db "hubot" [record_without_name] (clock 0%nat)
     = (sample_db, Raise DBAPIError)
  /\ refresh_loop pg_new_user_id pg_new_repository_id pg_varchar_ok
                  pg_integer_ok pg_text_ok scheme_http_url binary_le crowded_http_get
                  ["hubot"; "octocat"] clock sample_db
     = mkRun sample_db (Raise DBAPIError) [] ["hubot"].
Proof.
  intros clock.
  assert (Hf : fetch_github_repos crowded_http_get "hubot"
               = Return [record_without_name]) by reflexivity.
  assert (Hu : pg_upsert sample_db "hubot" [record_without_name] (clock 0%nat)
               = (sample_db, Raise DBAPIError)) by reflexivity.
  split; [exact Hf|]. split; [exact Hu|].
  exact (proj2 (@store_error_aborts_job pg_new_user_id pg_new_repository_id
                  pg_varchar_ok pg_integer_ok pg_text_ok string scheme_http_url binary_le
                  crowded_http_get "hubot" ["octocat"] clock sample_db
                  [record_without_name] sample_db DBAPIError Hf Hu)).
Defined.

(** A new username adds one row to [users]. *)
Lemma users_only_grow_witness :
  let run := pg_upsert sample_db "newcomer" [record 1 "alpha"] 100 in
  query_user "newcomer" (users sample_db) = None
  /\ committed (snd run)
  /\ map username (users (fst run)) = ["octocat"; "hubot"; "newcomer"]
  /\ map User_id (users (fst run)) = [1; 2; 3].
Proof.
  intros run.
  assert (Hq : query_user "newcomer" (users sample_db) = None) by reflexivity.
  assert (Hc : committed (snd run)) by (vm_compute; discriminate).
  split; [exact Hq|]. split; [exact Hc|].
  destruct (proj2 (@users_only_grow pg_new_user_id pg_new_repository_id
                     pg_varchar_ok pg_integer_ok pg_text_ok string scheme_http_url binary_le
                     sample_db "newcomer" [record 1 "alpha"] 100
                     (fst run) (snd run) (surjective_pairing run)) Hq Hc)
    as [Hi Hn].
  split; [exact Hn | exact Hi].
Defined.

(** octocat's row for 11 is updated where it is, the rows for 12 and 13 are
    deleted, the row for 14 is inserted last. *)
Lemma rows_updated_in_place_witness :
  let run := pg_upsert sample_db "octocat" [record 11 "a2"; record 14 "d"] 100 in
  committed (snd run)
  /\ map row_key (repositories (fst run)) = [(1, 1, 11); (4, 2, 11); (5, 1, 14)]
  /\ exists user kept rows,
      query_user "octocat" (users (fst run)) = Some user
      /\ repositories (fst run) = kept ++ rows
      /\ map row_key kept
         = map row_key (delete_not_in (User_id user) [11; 14]
                                      (repositories sample_db))
      /\ Forall (fun row =>
                   user_id row = User_id user
                   /\ In (github_id row) [11; 14]
                   /\ query_repository (User_id user) (github_id row)
                                       (repositories sample_db) = None) rows.
Proof.
  intros run.
  assert (Hc : committed (snd run)) by (vm_compute; discriminate).
  split; [exact Hc|]. split; [reflexivity|].
  exact (@rows_updated_in_place pg_new_user_id pg_new_repository_id
           pg_varchar_ok pg_integer_ok pg_text_ok string scheme_http_url binary_le
           sample_db "octocat" [record 11 "a2"; record 14 "d"] 100
           (fst run) (snd run) (surjective_pairing run) Hc).
Defined.


(** The store after two calls from the empty one. *)
Lemma reachable_constraints_witness :
  let db := fst (pg_upsert (fst (pg_upsert empty_db "octocat"
                                           [record 1 "alpha"] 100))
                           "hubot" [record 1 "h"; record 2 "i"] 200) in
  List.length (repositories db) = 3%nat /\ wf_db db /\ fk_ok db.
Proof.
  intros db. split; [reflexivity|].
  apply (@reachable_constraints pg_new_user_id pg_new_repository_id
           pg_varchar_ok pg_integer_ok pg_text_ok string scheme_http_url binary_le
           pg_new_user_id_fresh pg_new_repository_id_fresh db).
  apply reachable_upsert, reachable_upsert, reachable_empty.
Defined.

(** The external id 20, new for octocat, comes twice. *)
Lemma duplicate_new_id_refused_witness :
  fk_ok sample_db
  /\ ~ In 20 (stored_ids "octocat" sample_db)
  /\ pg_upsert sample_db "octocat"
               [record 20 "x"; record 11 "a"; record 20 "y"] 100
     = (sample_db, Raise DBAPIError).
Proof.
  assert (Hn : ~ In 20 (stored_ids "octocat" sample_db)).
  { vm_compute. intuition discriminate. }
  split; [exact sample_db_fk|]. split; [exact Hn|].
  exact (@duplicate_new_id_refused pg_new_user_id pg_new_repository_id
           pg_varchar_ok pg_integer_ok pg_text_ok string scheme_http_url binary_le
           pg_new_user_id_fresh
           sample_db "octocat" [record 20 "x"; record 11 "a"; record 20 "y"]
           100 [] (record 20 "x") [record 11 "a"] (record 20 "y") [] 20
           sample_db_fk eq_refl eq_refl eq_refl Hn).
Defined.

(** A new username and three records as GitHub sends them, one of them with
    a description, and a record without id between them: nothing for the
    store to refuse. *)
Lemma storable_records_commit_witness :
  let l := [record 1 "alpha"; record_without_id; record 2 "beta";
            mkRepoDict (Some 3) (Some "gamma")
                       (Some "https://github.com/newcomer/gamma")
                       (Some "third of three") None] in
  (query_user "newcomer" (users sample_db) = None ->
   pg_varchar_ok 39 "newcomer" = true)
  /\ Forall (storable pg_varchar_ok pg_integer_ok pg_text_ok) l
  /\ NoDup (valid_ids l)
  /\ committed (snd (pg_upsert sample_db "newcomer" l 100)).
Proof.
  intros l.
  assert (Hnm : query_user "newcomer" (users sample_db) = None ->
                pg_varchar_ok 39 "newcomer" = true) by reflexivity.
  assert (Hst : Forall (storable pg_varchar_ok pg_integer_ok pg_text_ok) l).
  { repeat constructor; unfold storable; simpl; auto;
      do 2 eexists; repeat split; reflexivity. }
  assert (Hnd : NoDup (valid_ids l)).
  { simpl. repeat constructor; simpl; intuition discriminate. }
  split; [exact Hnm|]. split; [exact Hst|]. split; [exact Hnd|].
  apply (@storable_records_commit pg_new_user_id pg_new_repository_id
           pg_varchar_ok pg_integer_ok pg_text_ok string scheme_http_url binary_le
           sample_db "newcomer" l 100); assumption.
Defined.

(** octocat reconciled with the id 11 twice and the id 14 once: two entries,
    and the entry for 11 shows the second record. *)
Lemma response_matches_input_witness :
  let l := [record 11 "first"; record 14 "d"; record 11 "second"] in
  exists db' resp,
    wf_db sample_db
    /\ pg_upsert sample_db "octocat" l 100 = (db', Return resp)
    /\ map (@rb_name string) (resp_repositories resp) = ["d"; "second"]
    /\ resp_username resp = "octocat"
    /\ exists ids,
        Permutation ids (nodup Z.eq_dec (valid_ids l))
        /\ Forall2 (fun g rb =>
                      exists repo h,
                        last_with_id g l = Some repo
                        /\ get_name repo = Some (rb_name rb)
                        /\ get_html_url repo = Some h
                        /\ scheme_http_url h = Some (rb_html_url rb)
                        /\ get_description repo = rb_description rb
                        /\ get_language repo = rb_language rb)
                   ids (resp_repositories resp).
Proof.
  intros l. eexists. eexists.
  assert (E : pg_upsert sample_db "octocat" l 100
              = (fst (pg_upsert sample_db "octocat" l 100),
                 Return (mkUserSyncResponse "octocat" "updated" false
                           [mkRepositoryBase "d"
                              "https://github.com/octocat/d"
                              None (Some "Python");
                            mkRepositoryBase "second"
                              "https://github.com/octocat/second"
                              None (Some "Python")])))
    by (vm_compute; reflexivity).
  split; [exact sample_db_wf|]. split; [exact E|]. split; [reflexivity|].
  exact (@response_matches_input pg_new_user_id pg_new_repository_id
           pg_varchar_ok pg_integer_ok pg_text_ok string scheme_http_url binary_le
           pg_new_user_id_fresh pg_new_repository_id_fresh
           sample_db "octocat" l 100 _ _ sample_db_wf E).
Defined.

(** Truncation: the upstream lists seven repositories for octocat, five are
    reconciled; the rows for 11, 12 and 13 are gone. *)
Lemma sync_keeps_at_most_five_witness :
  let run := sync_github_user pg_new_user_id pg_new_repository_id
                              pg_varchar_ok pg_integer_ok pg_text_ok scheme_http_url binary_le
                              crowded_http_get sample_db "octocat" 100 in
  wf_db sample_db
  /\ map github_id (repositories_of 1 (repositories (fst run))) = [1; 2; 3; 4; 5]
  /\ (forall resp,
         snd run = Return resp ->
         (List.length (resp_repositories resp) <= 5)%nat
         /\ exists user,
             query_user "octocat" (users (fst run)) = Some user
             /\ (List.length (repositories_of (User_id user)
                                              (repositories (fst run)))
                 <= 5)%nat).
Proof.
  intros run. split; [exact sample_db_wf|]. split; [reflexivity|].
  exact (proj2 (@sync_keeps_at_most_five pg_new_user_id pg_new_repository_id
                  pg_varchar_ok pg_integer_ok pg_text_ok string scheme_http_url binary_le
                  pg_new_user_id_fresh pg_new_repository_id_fresh
                  crowded_http_get sample_db "octocat" 100
                  (fst run) (snd run) sample_db_wf (surjective_pairing run))).
Defined.
